(** * CountingNN.metrics: mean Intersection-over-Union of a batch

    A shallow embedding of [src/CountingNN/metrics.py]:
    [squeeze_channels], [IoU.__init__], [IoU.threshold_],
    [IoU.compute_hist] and [IoU.evaluate].

    Conventions of the embedding.
    - A numpy array of rank 4 is a record of its [shape] and of its entries
      as nested lists, outermost axis first.
    - Arrays hold single-precision values, written as the rationals they
      are.  Where the code leaves exact arithmetic it is written out: the
      threshold is cast to single precision ([to_float32]) before OpenCV
      compares with it, and the counts of the histogram are rounded to
      single precision ([float32_of_Z]) when they are converted and every
      time two of them are added.  The reduction of the histogram to the
      mean is carried out on rationals, with the special values of the
      format (infinities, NaN) added, see [fval].
    - A Python exception is the [Err] branch of [res]. *)

From Stdlib Require Import List ZArith QArith Qround Lia Lqa Bool Arith Permutation Sorted.
Import ListNotations.

Close Scope Q_scope.
Open Scope nat_scope.

(** ** Exceptions *)

Inductive exn : Type :=
| ValueError   (* numpy: need at least one array to concatenate *)
| IndexError   (* index out of range, mask of the wrong shape *)
| RuntimeError (* torch: bincount of a negative value, invalid reshape *)
| AttributeError (* an attribute of None *).

Inductive res (A : Type) : Type :=
| Ok (a : A)
| Err (e : exn).

Arguments Ok {A} a.
Arguments Err {A} e.

Definition bind {A B : Type} (m : res A) (k : A -> res B) : res B :=
  match m with
  | Ok a => k a
  | Err e => Err e
  end.

Notation "x <- m ;; k" := (bind m (fun x => k))
  (at level 61, m at next level, right associativity).

(** ** Single precision *)

(** A floating-point value without its rounding: a rational or one of the
    special values. *)
Inductive fval : Type :=
| Fin (q : Q)
| PInf
| NInf
| NaN.

(** [2 ^ u] for an integer [u] of either sign. *)
Definition pow2 (u : Z) : Q :=
  if (0 <=? u)%Z then inject_Z (2 ^ u)
  else (1 # Z.to_pos (2 ^ (- u)))%Q.

(** The integer nearest to [n / d], for [0 <= n] and [0 < d]; a tie goes to
    the even neighbour. *)
Definition round_half_even (n d : Z) : Z :=
  let q := (n / d)%Z in
  let r := (n mod d)%Z in
  if (2 * r <? d)%Z then q
  else if (d <? 2 * r)%Z then (q + 1)%Z
  else if Z.even q then q else (q + 1)%Z.

(** The C cast [(float)x] of a finite double: the nearest value with a
    significand of 24 bits and an exponent of at least -126, ties to even;
    an infinity from 2^128 on. *)
Definition to_float32 (x : Q) : fval :=
  let a := Z.abs (Qnum x) in
  let b := Zpos (Qden x) in
  if (a =? 0)%Z then Fin 0%Q
  else
    let e0 := (Z.log2 a - Z.log2 b)%Z in
    (* [e] is the exponent of [a / b]: 2^e <= a / b < 2^(e+1) *)
    let e := if (if (0 <=? e0)%Z then (2 ^ e0 * b <=? a)%Z
                 else (b <=? a * 2 ^ (- e0))%Z)
             then e0 else (e0 - 1)%Z in
    let u := (Z.max e (-126) - 23)%Z in
    let m := if (0 <=? u)%Z then round_half_even a (b * 2 ^ u)
             else round_half_even (a * 2 ^ (- u)) b in
    if (128 <=? e)%Z || ((e =? 127)%Z && (m =? 2 ^ 24)%Z) then
      if (0 <? Qnum x)%Z then PInf else NInf
    else Fin (Qred (inject_Z (Z.sgn (Qnum x) * m) * pow2 u)).

(** The conversion of a 64-bit count to single precision, and the rounding
    of the sum of two single-precision counts: the nearest integer with a
    significand of 24 bits, ties to even.  (No count reaches 2^128.) *)
Definition float32_of_Z (z : Z) : Z :=
  let a := Z.abs z in
  if (a <? 2 ^ 24)%Z then z
  else
    let u := (Z.log2 a - 23)%Z in
    (Z.sgn z * (round_half_even a (2 ^ u) * 2 ^ u))%Z.

(** ** Arrays *)

(** [tab n f] is the list [f 0; ...; f (n-1)]. *)
Definition tab {A : Type} (n : nat) (f : nat -> A) : list A :=
  map f (seq 0 n).

(** [enumerate l] pairs every element with its position. *)
Definition enumerate {A : Type} (l : list A) : list (nat * A) :=
  combine (seq 0 (length l)) l.

(** [l[i] = x]; Python raises IndexError when [i] is out of range. *)
Fixpoint setitem {A : Type} (i : nat) (x : A) (l : list A) : res (list A) :=
  match l, i with
  | [], _ => Err IndexError
  | _ :: r, O => Ok (x :: r)
  | y :: r, S j => r' <- setitem j x r ;; Ok (y :: r')
  end.

(** A rank-2 and a rank-3 array, as nested lists. *)
Definition matrix : Type := list (list Q).
Definition image : Type := list (list (list Q)).

(** A rank-4 array: its shape and one rank-3 array per batch item. *)
Record ndarray4 : Type := mk_ndarray4 {
  shape : nat * nat * nat * nat;
  data : list image
}.

(** A rank-3 array with its shape. *)
Record ndarray3 : Type := mk_ndarray3 {
  shape3 : nat * nat * nat;
  data3 : list matrix
}.

Definition get2 (m : matrix) (i j : nat) : Q :=
  nth j (nth i m []) 0%Q.

Definition get3 (x : image) (i j k : nat) : Q :=
  nth k (nth j (nth i x []) []) 0%Q.


(** The entries agree with the shape. *)
Definition wf_image (d1 d2 d3 : nat) (x : image) : Prop :=
  length x = d1 /\
  Forall (fun row => length row = d2 /\
                     Forall (fun px => length px = d3) row) x.

Definition wf4 (a : ndarray4) : Prop :=
  let '(d0, d1, d2, d3) := shape a in
  length (data a) = d0 /\ Forall (wf_image d1 d2 d3) (data a).

(** [x > y] on array entries. *)
Definition Qgtb (x y : Q) : bool :=
  match (x ?= y)%Q with
  | Gt => true
  | _ => false
  end.

(** ** IoU.threshold_ *)

(** [x.transpose(1, 2, 0)] of one batch item: (C, H, W) to (H, W, C). *)
Definition transpose_image (c h w : nat) (x : image) : image :=
  tab h (fun i => tab w (fun j => tab c (fun k => get3 x k i j))).

(** [xarr.transpose(0, 2, 3, 1)]: (N, C, H, W) to (N, H, W, C). *)
Definition transpose_0231 (a : ndarray4) : ndarray4 :=
  let '(n, c, h, w) := shape a in
  {| shape := (n, h, w, c);
     data := map (transpose_image c h w) (data a) |}.

(** [np.zeros_like]: the same shape, every entry 0. *)
Definition zeros_like (a : ndarray4) : ndarray4 :=
  {| shape := shape a;
     data := map (map (map (map (fun _ => 0%Q)))) (data a) |}.

(** What the OpenCV binding hands back: an image of one channel comes back
    as a rank-2 array, an image of several channels as a rank-3 array. *)
Inductive cvmat : Type :=
| Mat2 (m : matrix)
| Mat3 (m : image).

(** [src > thresh] as OpenCV decides it on a single-precision image: the
    threshold, a double, is first cast to single precision. *)
Definition above (thresh v : Q) : bool :=
  match to_float32 thresh with
  | Fin t => Qgtb v t
  | PInf => false
  | NInf => true
  | NaN => false
  end.

(** THRESH_BINARY: [dst = maxval if src > thresh else 0]. *)
Definition thresh_binary (thresh maxval v : Q) : Q :=
  if above thresh v then maxval else 0%Q.

(** [cv2.threshold(x, thresh, maxval, cv2.THRESH_BINARY)] on an image of
    shape (h, w, c) (the second component of the returned pair).  For an
    image without entries the binding hands back [None]. *)
Definition cv2_threshold (h w c : nat) (x : image) (thresh maxval : Q)
    : option cvmat :=
  if h * w * c =? 0 then None
  else
    let dst := map (map (map (thresh_binary thresh maxval))) x in
    Some (if c =? 1 then Mat2 (map (map (fun px => hd 0%Q px)) dst)
          else Mat3 dst).

(** [x[..., None] if x.ndim == 2 else x]; [None] has no [ndim]. *)
Definition expand_if_2d (x : option cvmat) : res image :=
  match x with
  | None => Err AttributeError
  | Some (Mat2 m) => Ok (map (map (fun v => [v])) m)
  | Some (Mat3 m) => Ok m
  end.

(** The loop [for i, x in enumerate(xarr): ...; xarr_[i] = x] over images of
    shape (h, w, c). *)
Fixpoint threshold_loop (h w c : nat) (thresh : Q)
    (items : list (nat * image)) (xarr_ : list image) : res (list image) :=
  match items with
  | [] => Ok xarr_
  | (i, x) :: rest =>
      let x := cv2_threshold h w c x thresh 1%Q in
      x <- expand_if_2d x ;;
      xarr_ <- setitem i x xarr_ ;;
      threshold_loop h w c thresh rest xarr_
  end.

Definition threshold_ (xarr : ndarray4) (thresh : Q) : res ndarray4 :=
  let xarr := transpose_0231 xarr in
  let xarr_ := zeros_like xarr in
  let '(_, h, w, c) := shape xarr in
  d <- threshold_loop h w c thresh (enumerate (data xarr)) (data xarr_) ;;
  Ok {| shape := shape xarr_; data := d |}.

(** ** squeeze_channels *)

(** [np.zeros((1, h, w))]. *)
Definition zeros_1hw (h w : nat) : list matrix :=
  [tab h (fun _ => tab w (fun _ => 0%Q))].

(** [ilabel[:, :, c]]. *)
Definition channel (ilabel : image) (c : nat) : matrix :=
  map (map (fun px => nth c px 0%Q)) ilabel.

(** [m * c] for the loop counter [c]. *)
Definition scale (m : matrix) (c : nat) : matrix :=
  map (map (fun v => (v * inject_Z (Z.of_nat c))%Q)) m.

(** Entry-wise sum of two rank-2 arrays of one shape. *)
Definition madd (a b : matrix) : matrix :=
  map (fun rr => map (fun vv => (fst vv + snd vv)%Q)
                     (combine (fst rr) (snd rr)))
      (combine a b).

(** [label_ += m]: the rank-2 [m] is broadcast along the leading axis. *)
Definition iadd_broadcast (label_ : list matrix) (m : matrix) : list matrix :=
  map (fun plane => madd plane m) label_.

(** The inner function [squeeze_channels_] on a label of shape (h, w, c). *)
Definition squeeze_channels_ (h w c : nat) (ilabel : image) : list matrix :=
  fold_left (fun label_ k => iadd_broadcast label_ (scale (channel ilabel k) k))
            (seq 0 c) (zeros_1hw h w).

(** [label[label > top] = 0]. *)
Definition clip_above (top : Q) (label : list matrix) : list matrix :=
  map (map (map (fun v => if Qgtb v top then 0%Q else v))) label.

(** All entries of a rank-3 array, in row-major order. *)
Definition flatten3 {A : Type} (x : list (list (list A))) : list A :=
  concat (map (@concat A) x).

(** [np.unique]: the sorted distinct values. *)
Fixpoint insert_unique (v : Q) (l : list Q) : list Q :=
  match l with
  | [] => [v]
  | x :: r =>
      match (v ?= x)%Q with
      | Lt => v :: l
      | Eq => l
      | Gt => x :: insert_unique v r
      end
  end.

Definition np_unique (label : list matrix) : list Q :=
  fold_right insert_unique [] (flatten3 label).

(** [np.concatenate] of arrays that share their trailing shape; numpy
    raises ValueError on an empty sequence. *)
Definition np_concatenate {A : Type} (arrs : list (list A)) : res (list A) :=
  match arrs with
  | [] => Err ValueError
  | _ :: _ => Ok (concat arrs)
  end.

(** The second component of the result: [labels] itself on the
    single-channel short cut, a stack of index maps otherwise. *)
Inductive labels_out : Type :=
| Unsqueezed (l : ndarray4)
| Squeezed (l : ndarray3).

Section SqueezeChannels.

(** The items of [images] are only moved around; their type is free. *)
Context {I : Type}.

(** [labels.shape[-1] - 1] *)
Definition top_class (c : nat) : Q := inject_Z (Z.of_nat c - 1).

(** The filter of the [else] branch. *)
Definition all_classes_present (c : nat) (label : list matrix) : bool :=
  length (np_unique label) =? c.

(** One turn of [for label, image in zip(labels, images)]. *)
Definition squeeze_step (h w c : nat) (clip : bool)
    (acc : list (list I) * list (list matrix)) (p : image * I)
    : list (list I) * list (list matrix) :=
  let '(images_valid, labels_valid) := acc in
  let '(label, image) := p in
  let label := squeeze_channels_ h w c label in
  if clip then
    let label := clip_above (top_class c) label in
    (images_valid ++ [[image]], labels_valid ++ [label])
  else if all_classes_present c label then
    (images_valid ++ [[image]], labels_valid ++ [label])
  else (images_valid, labels_valid).

Definition squeeze_channels (images : list I) (labels : ndarray4)
    (clip : bool) : res (list I * labels_out) :=
  let '(_, h, w, c) := shape labels in
  if c =? 1 then Ok (images, Unsqueezed labels)
  else
    let '(images_valid, labels_valid) :=
      fold_left (squeeze_step h w c clip)
                (combine (data labels) images) ([], []) in
    imgs <- np_concatenate images_valid ;;
    labs <- np_concatenate labels_valid ;;
    Ok (imgs, Squeezed {| shape3 := (length labs, h, w); data3 := labs |}).

End SqueezeChannels.

(** ** Tensors of any rank *)

(** An array whose rank is not fixed, seen along its leading axis: the
    shape, and for every index of the leading axis the entries of that
    slice in row-major order (what [x.flatten()] gives for the slice). *)
Record ndarray : Type := mk_ndarray {
  nshape : list nat;
  nitems : list (list Q)
}.

(** The same for a torch tensor of 64-bit integers. *)
Record tensor : Type := mk_tensor {
  tshape : list nat;
  titems : list (list Z)
}.

Definition of_ndarray4 (a : ndarray4) : ndarray :=
  let '(n, d1, d2, d3) := shape a in
  {| nshape := [n; d1; d2; d3]; nitems := map (@flatten3 Q) (data a) |}.

Definition of_ndarray3 (a : ndarray3) : ndarray :=
  let '(n, d1, d2) := shape3 a in
  {| nshape := [n; d1; d2]; nitems := map (@concat Q) (data3 a) |}.

Definition of_labels_out (l : labels_out) : ndarray :=
  match l with
  | Unsqueezed a => of_ndarray4 a
  | Squeezed a => of_ndarray3 a
  end.

(** Conversion of an entry to a 64-bit integer: rounding toward zero. *)
Definition to_long (v : Q) : Z :=
  if Qlt_le_dec v 0%Q then Qceiling v else Qfloor v.

(** [torch.from_numpy(x).long()] *)
Definition long (x : ndarray) : tensor :=
  {| tshape := nshape x; titems := map (map to_long) (nitems x) |}.

(** ** The IoU class *)

Record IoU : Type := mk_IoU {
  self_thresh : Q;
  self_nb_classes : nat;
  self_pred : tensor;
  self_true : tensor
}.

Section Init.

(** [F.softmax(pred, dim=1)] and [torch.sigmoid(pred)] belong to the
    model's side of the boundary and are taken as given. *)
Variable softmax sigmoid : ndarray4 -> ndarray4.

(** [IoU.__init__(true, pred, activation, thresh)].  Moving a tensor
    between devices does not change its entries and is left out. *)
Definition IoU_init (true_ : ndarray) (pred : ndarray4)
    (activation : bool) (thresh : Q) : res IoU :=
  let '(_, c, _, _) := shape pred in
  let nb_classes := c in
  let pred :=
    if activation then
      if 1 <? nb_classes then softmax pred else sigmoid pred
    else pred in
  let nb_classes := if nb_classes =? 1 then nb_classes + 1 else nb_classes in
  pred <- threshold_ pred thresh ;;
  tp <- (let '(_, _, _, last) := shape pred in
         if 1 <? last then
           r <- squeeze_channels (nitems true_) pred true ;;
           Ok ({| nshape := length (fst r) :: tl (nshape true_);
                  nitems := fst r |},
               of_labels_out (snd r))
         else Ok (true_, of_ndarray4 pred)) ;;
  Ok {| self_thresh := thresh;
        self_nb_classes := nb_classes;
        self_pred := long (snd tp);
        self_true := long (fst tp) |}.

End Init.

(** ** IoU.compute_hist *)

(** [x[mask]] for a boolean mask; the mask must have the shape of [x]. *)
Definition mask_select {A : Type} (mask : list bool) (x : list A)
    : res (list A) :=
  if length mask =? length x then
    Ok (map snd (filter fst (combine mask x)))
  else Err IndexError.

(** [torch.bincount(x, minlength)]: entry [k] counts the occurrences of
    [k]; a negative value is refused. *)
Definition bincount (x : list Z) (minlength : nat) : res (list Z) :=
  if existsb (fun v => v <? 0)%Z x then Err RuntimeError
  else
    let size :=
      match x with
      | [] => minlength
      | _ :: _ => Nat.max minlength (S (Z.to_nat (fold_right Z.max 0%Z x)))
      end in
    Ok (tab size (fun k => Z.of_nat (count_occ Z.eq_dec x (Z.of_nat k)))).

(** [v.reshape(r, c)] of a vector. *)
Definition reshape2 (v : list Z) (r c : nat) : res (list (list Z)) :=
  if length v =? r * c then
    Ok (tab r (fun i => tab c (fun j => nth (i * c + j) v 0%Z)))
  else Err RuntimeError.

(** [x.float()] of a matrix of counts. *)
Definition to_float (hist : list (list Z)) : list (list Z) :=
  map (map float32_of_Z) hist.

(** The histogram of one pair: a matrix of single-precision values, each
    of them an integer. *)
Definition compute_hist (nb_classes : nat) (true_ pred : list Z)
    : res (list (list Z)) :=
  let nb := Z.of_nat nb_classes in
  let mask := map (fun t => (0 <=? t)%Z && (t <? nb)%Z) true_ in
  tm <- mask_select mask true_ ;;
  pm <- mask_select mask pred ;;
  let idx := map (fun tp => (nb * fst tp + snd tp)%Z) (combine tm pm) in
  hist <- bincount idx (nb_classes ^ 2) ;;
  hist <- reshape2 hist nb_classes nb_classes ;;
  Ok (to_float hist).

(** ** IoU.evaluate *)

(** [hist += h] on single-precision matrices of one shape: every sum is
    rounded. *)
Definition hist_add (a b : list (list Z)) : list (list Z) :=
  map (fun rr => map (fun vv => float32_of_Z (fst vv + snd vv))
                     (combine (fst rr) (snd rr)))
      (combine a b).

Definition hist_zeros (n : nat) : list (list Z) :=
  tab n (fun _ => tab n (fun _ => 0%Z)).

(** The loop [for t, p in zip(self.true, self.pred)]. *)
Fixpoint accumulate (nb_classes : nat) (pairs : list (list Z * list Z))
    (hist : list (list Z)) : res (list (list Z)) :=
  match pairs with
  | [] => Ok hist
  | (t, p) :: rest =>
      h <- compute_hist nb_classes t p ;;
      accumulate nb_classes rest (hist_add hist h)
  end.

Definition zsum (l : list Z) : Z := fold_right Z.add 0%Z l.

(** [torch.diag(hist)], [torch.sum(hist, dim=1)], [torch.sum(hist, dim=0)] *)
Definition diag (hist : list (list Z)) : list Z :=
  tab (length hist) (fun i => nth i (nth i hist []) 0%Z).

Definition sum_dim1 (hist : list (list Z)) : list Z :=
  map zsum hist.

Definition sum_dim0 (hist : list (list Z)) : list Z :=
  tab (length (hd [] hist)) (fun j => zsum (map (fun row => nth j row 0%Z) hist)).

(** Division of two finite values: 0/0 is NaN, x/0 is an infinity. *)
Definition fdiv (a b : Q) : fval :=
  if Qeq_bool b 0%Q then
    match (a ?= 0)%Q with
    | Eq => NaN
    | Gt => PInf
    | Lt => NInf
    end
  else Fin (a / b)%Q.

Definition fadd (x y : fval) : fval :=
  match x, y with
  | NaN, _ | _, NaN => NaN
  | Fin a, Fin b => Fin (a + b)%Q
  | PInf, NInf | NInf, PInf => NaN
  | PInf, _ | _, PInf => PInf
  | NInf, _ | _, NInf => NInf
  end.

(** [x == x], false on NaN only. *)
Definition self_equal (x : fval) : bool :=
  match x with
  | NaN => false
  | _ => true
  end.

(** [torch.mean]: the sum over the number of entries, NaN when empty. *)
Definition fmean (l : list fval) : fval :=
  match l with
  | [] => NaN
  | _ :: _ =>
      match fold_left fadd l (Fin 0%Q) with
      | Fin s => Fin (s / inject_Z (Z.of_nat (length l)))%Q
      | v => v
      end
  end.

(** The constant 1e-10 of the denominator. *)
Definition eps : Q := (1 # 10000000000)%Q.

(** [A_inter_B / (A + B - A_inter_B + 1e-10)], entry by entry. *)
Definition jaccard (hist : list (list Z)) : list fval :=
  let A_inter_B := diag hist in
  let A := sum_dim1 hist in
  let B := sum_dim0 hist in
  map (fun x => let '(i, a, b) := x in
                fdiv (inject_Z i)
                     (inject_Z a + inject_Z b - inject_Z i + eps)%Q)
      (combine (combine A_inter_B A) B).

(** The accumulated histogram of the stored batch. *)
Definition batch_hist (self : IoU) : res (list (list Z)) :=
  accumulate (self_nb_classes self)
             (combine (titems (self_true self)) (titems (self_pred self)))
             (hist_zeros (self_nb_classes self)).

Definition evaluate (self : IoU) : res fval :=
  hist <- batch_hist self ;;
  let jcd := jaccard hist in
  let avg_jcd := fmean (filter self_equal jcd) in
  Ok avg_jcd.

(** * Reference forms and sample inputs used by the statements below *)

(** One batch item after the transposition and the threshold. *)
Definition threshold_image (thresh : Q) (c h w : nat) (x : image) : image :=
  tab h (fun i => tab w (fun j => tab c (fun k =>
    thresh_binary thresh 1%Q (get3 x k i j)))).

(** Every entry is 0 or 1. *)
Definition binary4 (a : ndarray4) : Prop :=
  Forall (Forall (Forall (Forall (fun v => v = 0%Q \/ v = 1%Q)))) (data a).


(** A binary array of shape (1, 2, 1, 1). *)
Definition x5 : ndarray4 :=
  {| shape := (1, 2, 1, 1); data := [[[[0%Q]]; [[1%Q]]]] |}.

(** The single plane of [squeeze_channels_]: the running sum without its
    leading axis of length 1. *)
Definition index_map (h w c : nat) (ilabel : image) : matrix :=
  fold_left (fun m k => madd m (scale (channel ilabel k) k))
            (seq 0 c) (tab h (fun _ => tab w (fun _ => 0%Q))).

(** The plane after [label[label > c - 1] = 0]. *)
Definition clipped_index_map (h w c : nat) (ilabel : image) : matrix :=
  map (map (fun v => if Qgtb v (top_class c) then 0%Q else v))
      (index_map h w c ilabel).

(** The pairs that pass the filter of the [clip=False] branch. *)
Definition kept_pairs {I : Type} (h w c : nat) (pairs : list (image * I))
    : list (image * I) :=
  filter (fun p => all_classes_present c (squeeze_channels_ h w c (fst p)))
         pairs.

(** Three labels of shape (1, 2, 2); class 1 is missing from the second. *)
Definition labels7 : ndarray4 :=
  {| shape := (3, 1, 2, 2);
     data := [ [[[1%Q; 0%Q]; [0%Q; 1%Q]]];
               [[[1%Q; 0%Q]; [1%Q; 0%Q]]];
               [[[0%Q; 1%Q]; [1%Q; 0%Q]]] ] |}.

(** One label of three channels; its second pixel is set in channels 1
    and 2 at once. *)
Definition labels8 : ndarray4 :=
  {| shape := (1, 1, 2, 3);
     data := [ [[[0%Q; 0%Q; 1%Q]; [0%Q; 1%Q; 1%Q]]] ] |}.

(** An empty batch of two channels. *)
Definition labels_empty : ndarray4 :=
  {| shape := (0, 1, 1, 2); data := [] |}.

(** One label of two channels in which class 1 never occurs. *)
Definition labels9 : ndarray4 :=
  {| shape := (1, 1, 2, 2);
     data := [ [[[1%Q; 0%Q]; [1%Q; 0%Q]]] ] |}.

(** [0 <= t < nb_classes], the mask of [compute_hist]. *)
Definition valid_class (nb_classes : nat) (t : Z) : bool :=
  (0 <=? t)%Z && (t <? Z.of_nat nb_classes)%Z.

(** The (true, pred) values at the positions the mask selects. *)
Definition valid_pairs (nb_classes : nat) (true_ pred : list Z)
    : list (Z * Z) :=
  filter (fun tp => valid_class nb_classes (fst tp)) (combine true_ pred).

(** The flat indices [nb_classes * t + p] handed to [bincount]. *)
Definition flat_indices (nb_classes : nat) (true_ pred : list Z) : list Z :=
  map (fun tp => (Z.of_nat nb_classes * fst tp + snd tp)%Z)
      (valid_pairs nb_classes true_ pred).

(** Number of occurrences of the flat index of cell [(i, j)]. *)
Definition cell_count (nb_classes : nat) (true_ pred : list Z) (i j : nat) : Z :=
  Z.of_nat (count_occ Z.eq_dec (flat_indices nb_classes true_ pred)
                      (Z.of_nat (i * nb_classes + j))).

(** Sum of [f 0 .. f (n-1)]. *)
Definition nsum (n : nat) (f : nat -> Z) : Z := zsum (tab n f).

(** Sum of all entries of a histogram. *)
Definition total (hist : list (list Z)) : Z := zsum (map zsum hist).

(** Number of positions of the batch whose true value is a class index. *)
Definition valid_count (nb_classes : nat) (pairs : list (list Z * list Z))
    : nat :=
  fold_right (fun tp acc => length (filter (valid_class nb_classes) (fst tp)) + acc)
             0 pairs.

(** Cell [(i, j)] summed over the pairs of a batch. *)
Definition batch_cell (nb_classes : nat) (pairs : list (list Z * list Z))
    (i j : nat) : Z :=
  fold_right (fun tp acc => (cell_count nb_classes (fst tp) (snd tp) i j + acc)%Z)
             0%Z pairs.

(** The pairs on which [compute_hist] returns. *)
Definition pair_ok (nb_classes : nat) (tp : list Z * list Z) : Prop :=
  length (fst tp) = length (snd tp) /\
  Forall (fun x => (0 <= x < Z.of_nat (nb_classes * nb_classes))%Z)
         (flat_indices nb_classes (fst tp) (snd tp)).

(** Every predicted value at a position the mask selects is a class index. *)
Definition preds_in_range (nb_classes : nat) (true_ pred : list Z) : Prop :=
  Forall (fun tp => (0 <= snd tp < Z.of_nat nb_classes)%Z)
         (valid_pairs nb_classes true_ pred).

(** The zipped items of the stored batch. *)
Definition batch_pairs (self : IoU) : list (list Z * list Z) :=
  combine (titems (self_true self)) (titems (self_pred self)).

(** A stored batch of one item of four positions, two classes. *)
Definition self4 : IoU :=
  {| self_thresh := (1 # 2)%Q;
     self_nb_classes := 2;
     self_pred := {| tshape := [1; 2; 2]; titems := [[0; 1; -3; 0]%Z] |};
     self_true := {| tshape := [1; 2; 2]; titems := [[0; 1; 7; 1]%Z] |} |}.

(** The activation left out ([activation=False] never calls it). *)
Definition no_activation (a : ndarray4) : ndarray4 := a.

(** One image of one channel and one position, scored below the threshold,
    with the ground truth 0 at that position. *)
Definition pred_background : ndarray4 :=
  {| shape := (1, 1, 1, 1); data := [[[[(1 # 8)%Q]]]] |}.

Definition true_background : ndarray :=
  {| nshape := [1; 1; 1; 1]; nitems := [[0%Q]] |}.

(** What [IoU.__init__] stores for it: two classes, prediction and ground
    truth both 0 at the single position. *)
Definition self_background : IoU :=
  {| self_thresh := (1 # 2)%Q;
     self_nb_classes := 2;
     self_pred := {| tshape := [1; 1; 1; 1]; titems := [[0%Z]] |};
     self_true := {| tshape := [1; 1; 1; 1]; titems := [[0%Z]] |} |}.

(** Class [i] occurs nowhere in the stored true and predicted maps. *)
Definition class_absent (self : IoU) (i : nat) : Prop :=
  forall t p, In (t, p) (batch_pairs self) ->
              ~ In (Z.of_nat i) t /\ ~ In (Z.of_nat i) p.

(** The stored prediction equals the stored ground truth. *)
Definition perfect_prediction (self : IoU) : Prop :=
  self_pred self = self_true self.

(** The entries of the Jaccard vector as rationals, for a histogram given
    cell by cell. *)
Definition jaccard_q (nb : nat) (c : nat -> nat -> Z) : list Q :=
  tab nb (fun i =>
    (inject_Z (c i i)
     / (inject_Z (nsum nb (fun j => c i j))
        + inject_Z (nsum nb (fun k => c k i))
        - inject_Z (c i i) + eps))%Q).

Definition qsum (l : list Q) : Q := fold_left Qplus l 0%Q.

(** A stack of [n] maps of [h] x [w] class indices below [c]. *)
Definition class_index_map (n h w c : nat) (t : tensor) : Prop :=
  tshape t = [n; h; w] /\
  length (titems t) = n /\
  Forall (fun item =>
            length item = h * w /\
            Forall (fun z => (0 <= z < Z.of_nat c)%Z) item)
         (titems t).

(** A rational that is a natural number. *)
Definition is_count (v : Q) : Prop :=
  exists k : Z, (0 <= k)%Z /\ (v == inject_Z k)%Q.

(** The entries of a rank-2 array satisfy [P] and its shape is (h, w). *)
Definition matrix_of (P : Q -> Prop) (h w : nat) (m : matrix) : Prop :=
  length m = h /\ Forall (fun row => length row = w /\ Forall P row) m.

(** Scores of one image of two channels and one position, and a one-hot
    ground truth of the same shape (1, 2, 1, 1). *)
Definition pred_onehot : ndarray4 :=
  {| shape := (1, 2, 1, 1); data := [[[[(7 # 8)%Q]]; [[(1 # 8)%Q]]]] |}.

Definition true_onehot : ndarray :=
  {| nshape := [1; 2; 1; 1]; nitems := [[1%Q; 0%Q]] |}.

(** A ground truth that is an index map already, of shape (1, 1, 1). *)
Definition true_index : ndarray :=
  {| nshape := [1; 1; 1]; nitems := [[0%Q]] |}.

(** What [IoU.__init__] stores for [true_onehot] and [pred_onehot]. *)
Definition self_onehot : IoU :=
  {| self_thresh := (1 # 2)%Q;
     self_nb_classes := 2;
     self_pred := {| tshape := [1; 1; 1]; titems := [[0%Z]] |};
     self_true := {| tshape := [1; 2; 1; 1]; titems := [[1; 0]%Z] |} |}.



(** The sum over the channels [k < c] of [f k * k]. *)
Definition weighted_sum (c : nat) (f : nat -> Q) : Q :=
  fold_left (fun acc k => (acc + f k * inject_Z (Z.of_nat k))%Q)
            (seq 0 c) 0%Q.

(** The rows of a rank-3 array agree with the shape (h, w, _). *)
Definition wf_rows (h w : nat) (x : image) : Prop :=
  length x = h /\ Forall (fun row => length row = w) x.

(** The map of weighted sums of a label of shape (h, w, c): at [(i, j)] the
    sum over the channels [k] of [x[i, j, k] * k]. *)
Definition weighted_map (h w c : nat) (x : image) : matrix :=
  tab h (fun i => tab w (fun j => weighted_sum c (fun k => get3 x i j k))).

(** The distinct values of a list, each kept at its last position, and
    their number. *)
Fixpoint distinct (l : list Q) : list Q :=
  match l with
  | [] => []
  | v :: r => if existsb (Qeq_bool v) r then distinct r else v :: distinct r
  end.

Definition distinct_count (l : list Q) : nat := length (distinct l).

(** The pairs whose map of weighted sums has [c] distinct values, in the
    order of the batch. *)
Definition full_pairs {I : Type} (h w c : nat) (pairs : list (image * I))
    : list (image * I) :=
  filter (fun p => distinct_count (concat (weighted_map h w c (fst p))) =? c)
         pairs.

(** Cell [(i, j)] of the accumulated histogram as the loop of [evaluate]
    computes it from the start value [z]: the single-precision count of
    each pair is added in the order of the batch, and every sum is
    rounded. *)
Fixpoint rounded_cell (nb_classes : nat) (pairs : list (list Z * list Z))
    (z : Z) (i j : nat) : Z :=
  match pairs with
  | [] => z
  | tp :: rest =>
      rounded_cell nb_classes rest
        (float32_of_Z
           (z + float32_of_Z (cell_count nb_classes (fst tp) (snd tp) i j)))
        i j
  end.

(** The largest count below which every integer is a single-precision
    value. *)
Definition exact_limit : Z := (2 ^ 24)%Z.

(** A stored batch of one item of [n] positions, two classes: every
    position is of class 0 and predicted as class 0. *)
Definition self_zeros (n : nat) : IoU :=
  {| self_thresh := (1 # 2)%Q;
     self_nb_classes := 2;
     self_pred := {| tshape := [1; n]; titems := [repeat 0%Z n] |};
     self_true := {| tshape := [1; n]; titems := [repeat 0%Z n] |} |}.

(** 2^24 + 1 positions. *)
Definition many : nat := Z.to_nat 16777217.

(** * Reference forms for the further properties *)

(** A flat index that fits the [nb_classes] x [nb_classes] histogram. *)
Definition index_fits (nb_classes : nat) (x : Z) : bool :=
  (0 <=? x)%Z && (x <? Z.of_nat (nb_classes * nb_classes))%Z.

(** The histogram of one pair, cell by cell. *)
Definition cell_matrix (nb_classes : nat) (true_ pred : list Z)
    : list (list Z) :=
  tab nb_classes (fun i =>
    tab nb_classes (fun j => cell_count nb_classes true_ pred i j)).

(** Number of positions with true value [i] and predicted value [j]. *)
Definition confusions (true_ pred : list Z) (i j : nat) : nat :=
  length (filter (fun tp => (fst tp =? Z.of_nat i)%Z && (snd tp =? Z.of_nat j)%Z)
                 (combine true_ pred)).

(** One image of three positions: true classes 0, 1 and an out-of-range 9,
    with two predictions that differ at the out-of-range position only. *)
Definition sample_true : list Z := [0; 1; 9]%Z.
Definition sample_pred : list Z := [1; 1; 0]%Z.
Definition sample_pred' : list Z := [1; 1; -5]%Z.

(** No selected position of the batch is predicted right. *)
Definition never_right (self : IoU) : Prop :=
  forall t p, In (t, p) (batch_pairs self) ->
    forall a b, In (a, b) (valid_pairs (self_nb_classes self) t p) -> a <> b.

(** Every item of the batch goes through [compute_hist] with predictions
    that are class indices. *)
Definition batch_in_range (self : IoU) : Prop :=
  forall t p, In (t, p) (batch_pairs self) ->
    length t = length p /\ preds_in_range (self_nb_classes self) t p.

(** A stored batch from its class count and its zipped items. *)
Definition stored (nb_classes : nat) (pairs : list (list Z * list Z)) : IoU :=
  {| self_thresh := (1 # 2)%Q;
     self_nb_classes := nb_classes;
     self_pred := {| tshape := []; titems := map snd pairs |};
     self_true := {| tshape := []; titems := map fst pairs |} |}.

(** Two items of two classes; nothing is predicted right in the first. *)
Definition item_wrong : list Z * list Z := ([0; 1; 5]%Z, [1; 0; 0]%Z).
Definition item_mixed : list Z * list Z := ([0; 1; 1]%Z, [0; 1; 0]%Z).

(** Every value of both stored maps is a class index, and zipped items have
    one length. *)
Definition all_class_indices (self : IoU) : Prop :=
  forall t p, In (t, p) (batch_pairs self) ->
    length t = length p /\
    Forall (fun z => (0 <= z < Z.of_nat (self_nb_classes self))%Z) t /\
    Forall (fun z => (0 <= z < Z.of_nat (self_nb_classes self))%Z) p.

(** The stored batch with ground truth and prediction exchanged. *)
Definition swapped (self : IoU) : IoU :=
  {| self_thresh := self_thresh self;
     self_nb_classes := self_nb_classes self;
     self_pred := self_true self;
     self_true := self_pred self |}.

(** The one-hot pixel of class [k] among [c] channels, and the one-hot
    label of a map of classes. *)
Definition one_hot (c k : nat) : list Q :=
  tab c (fun k' => if k' =? k then 1%Q else 0%Q).

Definition one_hot_label (c : nat) (classes : list (list nat)) : image :=
  map (map (one_hot c)) classes.

(** A 1 x 2 map of the classes 2 and 0 among three. *)
Definition classes_20 : list (list nat) := [[2; 0]].



(** Every item of the batch has [k] entries. *)
Definition items_of_size (k : nat) (x : ndarray) : Prop :=
  Forall (fun item => length item = k) (nitems x).

(** Scores of shape (1, 3, 1, 2): at the first position channel 2 alone is
    above 0.5, at the second channels 1 and 2 both are. *)
Definition pred_three : ndarray4 :=
  {| shape := (1, 3, 1, 2);
     data := [[ [[(1 # 8)%Q; (1 # 8)%Q]];
                [[(1 # 4)%Q; (3 # 4)%Q]];
                [[(7 # 8)%Q; (5 # 8)%Q]] ]] |}.

(** A ground truth of shape (1, 1, 2) for it, and one of the shape of the
    scores. *)
Definition true_three : ndarray :=
  {| nshape := [1; 1; 2]; nitems := [[2%Q; 0%Q]] |}.

Definition true_three_onehot : ndarray :=
  {| nshape := [1; 3; 1; 2];
     nitems := [[0%Q; 1%Q; 0%Q; 0%Q; 1%Q; 0%Q]] |}.

(** Scores of shape (1, 1, 1, 2) and a ground truth for them. *)
Definition pred_single : ndarray4 :=
  {| shape := (1, 1, 1, 2); data := [[[[(7 # 8)%Q; (1 # 8)%Q]]]] |}.

Definition true_single : ndarray :=
  {| nshape := [1; 1; 1; 2]; nitems := [[1%Q; 1%Q]] |}.

(** An empty batch of scores of three channels. *)
Definition pred_empty : ndarray4 :=
  {| shape := (0, 3, 1, 2); data := [] |}.

Definition true_empty : ndarray :=
  {| nshape := [0; 1; 2]; nitems := [] |}.

(** The one-hot labels of a batch of maps of classes, as an array of shape
    (n, h, w, c). *)
Definition one_hot_batch (n h w c : nat) (batch : list (list (list nat)))
    : ndarray4 :=
  {| shape := (n, h, w, c); data := map (one_hot_label c) batch |}.

(** An h x w map of classes below [c]. *)
Definition class_map (h w c : nat) (classes : list (list nat)) : Prop :=
  length classes = h /\
  Forall (fun row => length row = w /\ Forall (fun k => k < c) row) classes.

(** Two 1 x 3 maps of three classes; class 1 is missing from the second. *)
Definition classes_full : list (list nat) := [[2; 0; 1]].
Definition classes_partial : list (list nat) := [[2; 0; 2]].

(** The class of position [(i, j)] of a map of classes. *)
Definition class_at (classes : list (list nat)) (i j : nat) : nat :=
  nth j (nth i classes []) 0.

(** Sorted insertion without duplicates on natural numbers, the image of
    [insert_unique] on class values. *)
Fixpoint nat_insert_unique (k : nat) (l : list nat) : list nat :=
  match l with
  | [] => [k]
  | x :: r =>
      match k ?= x with
      | Lt => k :: l
      | Eq => l
      | Gt => x :: nat_insert_unique k r
      end
  end.

Definition nat_unique (l : list nat) : list nat :=
  fold_right nat_insert_unique [] l.

(** The natural number a class value stands for. *)
Definition class_key (v : Q) : nat := Z.to_nat (Qfloor v).

(** A rational that is a class index below [c]. *)
Definition is_class (c : nat) (v : Q) : Prop :=
  exists k, k < c /\ (v == inject_Z (Z.of_nat k))%Q.

(** Every class below [c] occurs in the h x w map of classes. *)
Definition covers (h w c : nat) (classes : list (list nat)) : Prop :=
  forall k, k < c -> exists i j, i < h /\ j < w /\ class_at classes i j = k.

(** Whether every class below [c] occurs in the map, as a test. *)
Definition coversb (c : nat) (classes : list (list nat)) : bool :=
  forallb (fun k => existsb (fun row => existsb (Nat.eqb k) row) classes)
          (seq 0 c).


(** * Properties *)

(** ** Lists and tabulation *)

Lemma length_tab {A : Type} (n : nat) (f : nat -> A) : length (tab n f) = n.
Proof. unfold tab. now rewrite length_map, length_seq. Qed.

Lemma nth_tab {A : Type} (n : nat) (f : nat -> A) (i : nat) (d : A) :
  i < n -> nth i (tab n f) d = f i.
Proof.
  intros Hi. unfold tab.
  rewrite (nth_indep _ d (f 0)) by now rewrite length_map, length_seq.
  rewrite map_nth, seq_nth; auto.
Qed.

Lemma tab_ext {A : Type} (n : nat) (f g : nat -> A) :
  (forall i, i < n -> f i = g i) -> tab n f = tab n g.
Proof.
  intros H. unfold tab. apply map_ext_in.
  intros i Hi. apply in_seq in Hi. apply H. lia.
Qed.

Lemma map_tab {A B : Type} (g : A -> B) (n : nat) (f : nat -> A) :
  map g (tab n f) = tab n (fun i => g (f i)).
Proof. unfold tab. now rewrite map_map. Qed.

Lemma setitem_app {A : Type} (pre : list A) (x z : A) (zs : list A) :
  setitem (length pre) x (pre ++ z :: zs) = Ok (pre ++ x :: zs).
Proof.
  induction pre as [|y pre IH]; simpl.
  - reflexivity.
  - now rewrite IH.
Qed.


Lemma Qgtb_le (x y : Q) : Qgtb x y = false <-> (x <= y)%Q.
Proof.
  unfold Qgtb. rewrite (Qle_alt x y).
  destruct (x ?= y)%Q; split; intros H; congruence.
Qed.

Lemma Forall_tab {A : Type} (P : A -> Prop) (n : nat) (f : nat -> A) :
  (forall i, i < n -> P (f i)) -> Forall P (tab n f).
Proof.
  intros H. unfold tab. apply Forall_map, Forall_forall.
  intros i Hi. apply in_seq in Hi. apply H. lia.
Qed.

Lemma combine_map_same {A B C : Type} (f : A -> B) (g : A -> C) (l : list A) :
  combine (map f l) (map g l) = map (fun a => (f a, g a)) l.
Proof. induction l as [|a l IH]; simpl; congruence. Qed.
(** ** threshold_ *)


Lemma cv2_threshold_transposed (thresh : Q) (c h w : nat) (x : image) :
  0 < h * w * c ->
  expand_if_2d (cv2_threshold h w c (transpose_image c h w x) thresh 1%Q)
  = Ok (threshold_image thresh c h w x).
Proof.
  intros Hpos. unfold cv2_threshold.
  replace (h * w * c =? 0) with false by (symmetry; apply Nat.eqb_neq; lia).
  unfold transpose_image, threshold_image.
  destruct (Nat.eqb_spec c 1) as [-> | Hc]; simpl expand_if_2d;
    apply (f_equal Ok).
  - rewrite !map_tab. apply tab_ext. intros i _.
    rewrite !map_tab. apply tab_ext. intros j _.
    reflexivity.
  - rewrite !map_tab. apply tab_ext. intros i _.
    rewrite !map_tab. apply tab_ext. intros j _.
    now rewrite map_tab.
Qed.

(** On an image without entries OpenCV hands back [None], and the next
    line of the loop raises. *)
Lemma cv2_threshold_no_entries (thresh : Q) (c h w : nat) (x : image) :
  h * w * c = 0 ->
  expand_if_2d (cv2_threshold h w c x thresh 1%Q) = Err AttributeError.
Proof.
  intros H. unfold cv2_threshold. now rewrite H.
Qed.

(** The loop writes item [i] of the result from item [i] of the input. *)
Lemma threshold_loop_map (c h w : nat) (thresh : Q) (xs : list image) :
  0 < h * w * c ->
  forall (pre zs : list image),
    length zs = length xs ->
    threshold_loop h w c thresh
      (combine (seq (length pre) (length xs))
               (map (transpose_image c h w) xs))
      (pre ++ zs)
    = Ok (pre ++ map (threshold_image thresh c h w) xs).
Proof.
  intros Hpos.
  induction xs as [|x xs IH]; intros pre zs Hlen.
  - destruct zs; [simpl; now rewrite app_nil_r | discriminate].
  - destruct zs as [|z zs]; [discriminate|].
    simpl threshold_loop. simpl combine. cbv beta iota.
    rewrite (cv2_threshold_transposed thresh c h w x Hpos). simpl bind.
    rewrite setitem_app. simpl bind.
    specialize (IH (pre ++ [threshold_image thresh c h w x]) zs).
    rewrite length_app in IH. simpl length in IH.
    rewrite Nat.add_1_r in IH.
    rewrite <- !app_assoc in IH. simpl app in IH.
    simpl map. apply IH. simpl in Hlen. lia.
Qed.

(** On images with at least one entry [threshold_] returns the transposed
    array with the threshold applied entry by entry. *)
Lemma threshold_spec (xarr : ndarray4) (thresh : Q) (n c h w : nat) :
  shape xarr = (n, c, h, w) ->
  0 < c -> 0 < h -> 0 < w ->
  threshold_ xarr thresh =
  Ok {| shape := (n, h, w, c);
        data := map (threshold_image thresh c h w) (data xarr) |}.
Proof.
  intros Hs Hc Hh Hw. unfold threshold_, transpose_0231. rewrite Hs.
  cbn [shape data zeros_like]. unfold enumerate.
  assert (Hpos : 0 < h * w * c) by nia.
  pose proof (threshold_loop_map c h w thresh (data xarr) Hpos []
                (map (map (map (map (fun _ => 0%Q))))
                     (map (transpose_image c h w) (data xarr)))) as H.
  cbn [length app] in H. rewrite length_map.
  rewrite H by now rewrite !length_map.
  reflexivity.
Qed.

(** On an empty batch the loop does not run. *)
Lemma threshold_spec_empty (xarr : ndarray4) (thresh : Q) (n c h w : nat) :
  shape xarr = (n, c, h, w) ->
  data xarr = [] ->
  threshold_ xarr thresh = Ok {| shape := (n, h, w, c); data := [] |}.
Proof.
  intros Hs Hd. unfold threshold_, transpose_0231. rewrite Hs, Hd.
  reflexivity.
Qed.





Lemma nth_Forall {A : Type} (P : A -> Prop) (l : list A) (i : nat) (d : A) :
  Forall P l -> P d -> P (nth i l d).
Proof.
  intros Hl Hd. destruct (Nat.lt_ge_cases i (length l)) as [Hi | Hi].
  - rewrite Forall_forall in Hl. apply Hl. now apply nth_In.
  - now rewrite nth_overflow.
Qed.

Lemma binary_get3 (x : image) (i j k : nat) :
  Forall (Forall (Forall (fun v => v = 0%Q \/ v = 1%Q))) x ->
  get3 x i j k = 0%Q \/ get3 x i j k = 1%Q.
Proof.
  intros Hx. unfold get3.
  apply nth_Forall; [|now left].
  apply nth_Forall; [|constructor].
  apply nth_Forall; [assumption|constructor].
Qed.

(** C5, as the code has it: on an array of shape (n, c, h, w) whose images
    have at least one entry and whose entries are all 0 or 1, [threshold_]
    at 0.5 keeps every value and returns the array with its axes permuted
    to (n, h, w, c). *)
Theorem threshold_binary_is_transpose (xarr : ndarray4) (n c h w : nat) :
  shape xarr = (n, c, h, w) ->
  0 < c -> 0 < h -> 0 < w ->
  binary4 xarr ->
  threshold_ xarr (1 # 2)%Q = Ok (transpose_0231 xarr).
Proof.
  intros Hs Hc Hh Hw Hb. rewrite (threshold_spec _ _ _ _ _ _ Hs Hc Hh Hw).
  unfold transpose_0231. rewrite Hs. f_equal. f_equal.
  apply map_ext_in. intros x Hx.
  unfold binary4 in Hb. rewrite Forall_forall in Hb. specialize (Hb x Hx).
  unfold threshold_image, transpose_image.
  apply tab_ext. intros i _. apply tab_ext. intros j _.
  apply tab_ext. intros k _.
  destruct (binary_get3 x k i j Hb) as [-> | ->]; reflexivity.
Qed.

Ltac solve_binary :=
  repeat first [ apply Forall_nil | apply Forall_cons
               | left; reflexivity | right; reflexivity ].

Lemma threshold_binary_is_transpose_witness :
  threshold_ x5 (1 # 2)%Q = Ok (transpose_0231 x5).
Proof.
  apply (threshold_binary_is_transpose x5 1 2 1 1); try lia.
  - reflexivity.
  - unfold binary4; simpl; solve_binary.
Defined.

(** C5, as the claim has it, fails: the binary array [x5] of shape
    (1, 2, 1, 1) does not come back unchanged, it comes back with shape
    (1, 1, 1, 2). *)
Lemma threshold_binary_changes_layout :
  binary4 x5 /\
  threshold_ x5 (1 # 2)%Q <> Ok x5 /\
  threshold_ x5 (1 # 2)%Q
  = Ok {| shape := (1, 1, 1, 2); data := [[[[0%Q; 1%Q]]]] |}.
Proof.
  split; [unfold binary4; simpl; solve_binary|].
  split; [|reflexivity].
  intros H. discriminate H.
Qed.
(** ** squeeze_channels *)

Lemma squeeze_channels__plane (h w c : nat) (ilabel : image) :
  squeeze_channels_ h w c ilabel = [index_map h w c ilabel].
Proof.
  unfold squeeze_channels_, index_map, zeros_1hw.
  generalize (tab h (fun _ : nat => tab w (fun _ : nat => 0%Q))).
  induction (seq 0 c) as [|k ks IH]; intros m; simpl.
  - reflexivity.
  - apply IH.
Qed.

Lemma concat_map_singleton {A B : Type} (f : A -> B) (l : list A) :
  concat (map (fun a => [f a]) l) = map f l.
Proof. induction l as [|a l IH]; simpl; congruence. Qed.

Section SqueezeLoop.

Context {I : Type}.
Variables h w c : nat.

(** With [clip=True] the loop appends every pair. *)
Lemma squeeze_loop_clip (pairs : list (image * I)) :
  forall images_valid labels_valid,
    fold_left (squeeze_step h w c true) pairs (images_valid, labels_valid)
    = (images_valid ++ map (fun p => [snd p]) pairs,
       labels_valid ++ map (fun p => [clipped_index_map h w c (fst p)]) pairs).
Proof.
  induction pairs as [|[label image] pairs IH]; intros iv lv; simpl.
  - now rewrite !app_nil_r.
  - rewrite IH, <- !app_assoc. simpl.
    now rewrite squeeze_channels__plane.
Qed.

(** With [clip=False] the loop appends the pairs that pass the filter,
    in the order in which it meets them. *)
Lemma squeeze_loop_noclip (pairs : list (image * I)) :
  forall images_valid labels_valid,
    fold_left (squeeze_step h w c false) pairs (images_valid, labels_valid)
    = (images_valid ++ map (fun p => [snd p]) (kept_pairs h w c pairs),
       labels_valid
         ++ map (fun p => [index_map h w c (fst p)]) (kept_pairs h w c pairs)).
Proof.
  induction pairs as [|[label image] pairs IH]; intros iv lv; simpl.
  - now rewrite !app_nil_r.
  - destruct (all_classes_present c (squeeze_channels_ h w c label)) eqn:E.
    + rewrite IH, <- !app_assoc. simpl.
      now rewrite squeeze_channels__plane.
    + apply IH.
Qed.

End SqueezeLoop.

Lemma np_concatenate_singletons {A B : Type} (f : A -> B) (l : list A) :
  np_concatenate (map (fun a => [f a]) l)
  = match l with
    | [] => Err ValueError
    | _ :: _ => Ok (map f l)
    end.
Proof.
  destruct l as [|a l]; [reflexivity|].
  unfold np_concatenate.
  change (map (fun a0 => [f a0]) (a :: l))
    with ([f a] :: map (fun a0 => [f a0]) l).
  simpl. now rewrite (concat_map_singleton f l).
Qed.

(** The whole of [squeeze_channels] on a multi-channel input. *)
Lemma squeeze_channels_noclip_spec {I : Type} (images : list I)
    (labels : ndarray4) (n h w c : nat) :
  shape labels = (n, h, w, c) ->
  c <> 1 ->
  squeeze_channels images labels false
  = let kept := kept_pairs h w c (combine (data labels) images) in
    match kept with
    | [] => Err ValueError
    | _ :: _ =>
        Ok (map snd kept,
            Squeezed {| shape3 := (length kept, h, w);
                        data3 := map (fun p => index_map h w c (fst p)) kept |})
    end.
Proof.
  intros Hs Hc. unfold squeeze_channels. rewrite Hs.
  apply Nat.eqb_neq in Hc. rewrite Hc.
  rewrite squeeze_loop_noclip. simpl app.
  rewrite (np_concatenate_singletons (@snd image I)).
  rewrite (np_concatenate_singletons (fun p : image * I => index_map h w c (fst p))).
  cbv zeta.
  destruct (kept_pairs h w c (combine (data labels) images)) as [|p kept];
    [reflexivity|].
  simpl bind. now rewrite length_map.
Qed.

Lemma squeeze_channels_clip_spec {I : Type} (images : list I)
    (labels : ndarray4) (n h w c : nat) :
  shape labels = (n, h, w, c) ->
  c <> 1 ->
  squeeze_channels images labels true
  = let pairs := combine (data labels) images in
    match pairs with
    | [] => Err ValueError
    | _ :: _ =>
        Ok (map snd pairs,
            Squeezed {| shape3 := (length pairs, h, w);
                        data3 := map (fun p => clipped_index_map h w c (fst p))
                                     pairs |})
    end.
Proof.
  intros Hs Hc. unfold squeeze_channels. rewrite Hs.
  apply Nat.eqb_neq in Hc. rewrite Hc.
  rewrite squeeze_loop_clip. simpl app.
  rewrite (np_concatenate_singletons (@snd image I)).
  rewrite (np_concatenate_singletons
             (fun p : image * I => clipped_index_map h w c (fst p))).
  cbv zeta.
  destruct (combine (data labels) images) as [|p pairs]; [reflexivity|].
  simpl bind. now rewrite length_map.
Qed.

Lemma map_snd_combine {A B : Type} (l : list A) (l' : list B) :
  length l = length l' -> map snd (combine l l') = l'.
Proof.
  revert l'. induction l as [|a l IH]; intros [|b l'] H; simpl in *;
    try discriminate; [reflexivity|].
  f_equal. apply IH. lia.
Qed.

Lemma map_fst_combine {A B C : Type} (f : A -> C) (l : list A) (l' : list B) :
  length l = length l' -> map (fun p => f (fst p)) (combine l l') = map f l.
Proof.
  revert l'. induction l as [|a l IH]; intros [|b l'] H; simpl in *;
    try discriminate; [reflexivity|].
  f_equal. apply IH. lia.
Qed.

(** *** What the loop over the channels computes *)

Lemma list_as_tab {A : Type} (l : list A) (d : A) :
  l = tab (length l) (fun i => nth i l d).
Proof.
  apply (nth_ext _ _ d d).
  - now rewrite length_tab.
  - intros i Hi. now rewrite nth_tab.
Qed.

Lemma image_as_tab (h w : nat) (x : image) :
  wf_rows h w x ->
  x = tab h (fun i => tab w (fun j => nth j (nth i x []) [])).
Proof.
  intros [Hh Hw]. rewrite (list_as_tab x []) at 1. rewrite Hh.
  apply tab_ext. intros i Hi.
  rewrite (list_as_tab (nth i x []) []) at 1.
  rewrite Forall_forall in Hw. rewrite (Hw (nth i x [])); [reflexivity|].
  apply nth_In. lia.
Qed.

Lemma madd_tab (h w : nat) (f g : nat -> nat -> Q) :
  madd (tab h (fun i => tab w (fun j => f i j)))
       (tab h (fun i => tab w (fun j => g i j)))
  = tab h (fun i => tab w (fun j => (f i j + g i j)%Q)).
Proof.
  unfold madd, tab. rewrite combine_map_same, map_map.
  apply map_ext. intros i. simpl.
  now rewrite combine_map_same, map_map.
Qed.

Lemma scale_channel_tab (h w : nat) (px : nat -> nat -> list Q) (k : nat) :
  scale (channel (tab h (fun i => tab w (fun j => px i j))) k) k
  = tab h (fun i => tab w (fun j =>
      (nth k (px i j) 0 * inject_Z (Z.of_nat k))%Q)).
Proof.
  unfold scale, channel. rewrite !map_tab. apply tab_ext. intros i _.
  now rewrite !map_tab.
Qed.

Lemma index_map_fold (h w : nat) (px : nat -> nat -> list Q) (ks : list nat) :
  forall a : nat -> nat -> Q,
    fold_left (fun m k =>
                 madd m (scale (channel (tab h (fun i => tab w (fun j => px i j)))
                                        k) k))
              ks (tab h (fun i => tab w (fun j => a i j)))
    = tab h (fun i => tab w (fun j =>
        fold_left (fun acc k => (acc + nth k (px i j) 0
                                       * inject_Z (Z.of_nat k))%Q)
                  ks (a i j))).
Proof.
  induction ks as [|k ks IH]; intros a; simpl; [reflexivity|].
  rewrite scale_channel_tab, madd_tab. apply IH.
Qed.

(** The index map of a well-shaped label, entry by entry. *)
Lemma index_map_pointwise (h w c : nat) (x : image) :
  wf_rows h w x ->
  index_map h w c x
  = tab h (fun i => tab w (fun j =>
      weighted_sum c (fun k => get3 x i j k))).
Proof.
  intros Hx.
  set (px := fun i j : nat => nth j (nth i x []) (@nil Q)).
  assert (E : x = tab h (fun i => tab w (fun j => px i j)))
    by exact (image_as_tab h w x Hx).
  transitivity (index_map h w c (tab h (fun i => tab w (fun j => px i j))));
    [now rewrite <- E|].
  unfold index_map.
  rewrite (index_map_fold h w px (seq 0 c) (fun _ _ => 0%Q)).
  reflexivity.
Qed.

(** *** np.unique counts the distinct values *)

Lemma Forall_insert_unique (P : Q -> Prop) (v : Q) (l : list Q) :
  P v -> Forall P l -> Forall P (insert_unique v l).
Proof.
  intros Hv Hl. induction Hl as [|x r Hx Hr IH]; simpl.
  - now constructor.
  - destruct (v ?= x)%Q; repeat constructor; assumption.
Qed.

Lemma insert_unique_sorted (v : Q) (l : list Q) :
  StronglySorted Qlt l -> StronglySorted Qlt (insert_unique v l).
Proof.
  intros Hl. induction Hl as [|x r Hr IH Hx]; simpl.
  - repeat constructor.
  - destruct (v ?= x)%Q eqn:E.
    + now constructor.
    + apply Qlt_alt in E. constructor; [now constructor|].
      constructor; [assumption|].
      eapply Forall_impl; [|exact Hx].
      intros y Hy. now apply (Qlt_trans v x y).
    + apply Qgt_alt in E. constructor; [assumption|].
      now apply Forall_insert_unique.
Qed.

Lemma Qeq_bool_false_lt (v x : Q) : (v < x)%Q -> Qeq_bool v x = false.
Proof.
  intros H. destruct (Qeq_bool v x) eqn:E; [|reflexivity].
  apply Qeq_bool_iff in E. rewrite E in H. now apply Qlt_irrefl in H.
Qed.

Lemma existsb_above (v : Q) (l : list Q) :
  Forall (Qlt v) l -> existsb (Qeq_bool v) l = false.
Proof.
  intros H. induction H as [|x r Hx Hr IH]; [reflexivity|].
  simpl. now rewrite (Qeq_bool_false_lt v x Hx).
Qed.

(** Inserting a value into a strictly increasing list lengthens it by one
    exactly when the value is new. *)
Lemma insert_unique_length (v : Q) (l : list Q) :
  StronglySorted Qlt l ->
  length (insert_unique v l)
  = if existsb (Qeq_bool v) l then length l else S (length l).
Proof.
  intros Hl. induction Hl as [|x r Hr IH Hx]; [reflexivity|].
  simpl insert_unique. simpl existsb.
  destruct (v ?= x)%Q eqn:E.
  - apply Qeq_alt, Qeq_bool_iff in E. now rewrite E.
  - apply Qlt_alt in E. rewrite (Qeq_bool_false_lt v x E).
    rewrite existsb_above; [reflexivity|].
    eapply Forall_impl; [|exact Hx].
    intros y Hy. now apply (Qlt_trans v x y).
  - apply Qgt_alt in E.
    assert (Hne : Qeq_bool v x = false).
    { destruct (Qeq_bool v x) eqn:E'; [|reflexivity].
      apply Qeq_bool_iff in E'. rewrite E' in E. now apply Qlt_irrefl in E. }
    rewrite Hne. simpl. rewrite IH.
    now destruct (existsb (Qeq_bool v) r).
Qed.

Lemma Qeq_bool_trans_l (v w x : Q) :
  (w == x)%Q -> Qeq_bool v w = Qeq_bool v x.
Proof.
  intros E. destruct (Qeq_bool v x) eqn:Ex.
  - apply Qeq_bool_iff. apply Qeq_bool_iff in Ex. now rewrite E.
  - destruct (Qeq_bool v w) eqn:Ew; [|reflexivity].
    apply Qeq_bool_iff in Ew. rewrite E in Ew.
    apply Qeq_bool_iff in Ew. congruence.
Qed.

(** The members of the list after an insertion, up to equality of
    rationals. *)
Lemma existsb_insert_unique (v w : Q) (l : list Q) :
  existsb (Qeq_bool v) (insert_unique w l)
  = Qeq_bool v w || existsb (Qeq_bool v) l.
Proof.
  induction l as [|x r IH]; [reflexivity|].
  simpl insert_unique. destruct (w ?= x)%Q eqn:E.
  - apply Qeq_alt in E. simpl. rewrite (Qeq_bool_trans_l v w x E).
    now destruct (Qeq_bool v x).
  - reflexivity.
  - simpl. rewrite IH.
    destruct (Qeq_bool v x), (Qeq_bool v w); reflexivity.
Qed.

(** [np.unique] on the entries [l]: the result is strictly increasing, has
    the members of [l], and its length is the number of distinct values
    of [l]. *)
Lemma np_unique_distinct (l : list Q) :
  StronglySorted Qlt (fold_right insert_unique [] l) /\
  (forall v, existsb (Qeq_bool v) (fold_right insert_unique [] l)
             = existsb (Qeq_bool v) l) /\
  length (fold_right insert_unique [] l) = distinct_count l.
Proof.
  induction l as [|x l [Hs [Hm Hl]]]; simpl.
  - split; [constructor|]. split; reflexivity.
  - split; [now apply insert_unique_sorted|]. split.
    + intros v. now rewrite existsb_insert_unique, Hm.
    + rewrite (insert_unique_length x _ Hs), Hm.
      unfold distinct_count in *. simpl.
      destruct (existsb (Qeq_bool x) l); simpl; congruence.
Qed.

(** The filter of the loop counts the distinct values of the map of
    weighted sums. *)
Lemma all_classes_present_distinct (h w c : nat) (x : image) :
  wf_rows h w x ->
  all_classes_present c (squeeze_channels_ h w c x)
  = (distinct_count (concat (weighted_map h w c x)) =? c).
Proof.
  intros Hx. unfold all_classes_present, np_unique, flatten3.
  rewrite squeeze_channels__plane, (index_map_pointwise h w c x Hx).
  fold (weighted_map h w c x). simpl map. simpl concat.
  rewrite app_nil_r.
  now rewrite (proj2 (proj2 (np_unique_distinct _))).
Qed.

Lemma kept_pairs_full_pairs {I : Type} (h w c : nat)
    (pairs : list (image * I)) :
  Forall (fun p => wf_rows h w (fst p)) pairs ->
  kept_pairs h w c pairs = full_pairs h w c pairs.
Proof.
  intros H. unfold kept_pairs, full_pairs.
  apply filter_ext_in. intros p Hp.
  rewrite Forall_forall in H.
  apply all_classes_present_distinct. now apply H.
Qed.

Lemma combine_Forall_fst {A B : Type} (P : A -> Prop)
    (l : list A) (l' : list B) :
  Forall P l -> Forall (fun p => P (fst p)) (combine l l').
Proof.
  intros H. apply Forall_forall. intros [a b] Hp.
  rewrite Forall_forall in H. apply H.
  now apply in_combine_l in Hp.
Qed.

(** C7: on a multi-channel input with [clip=False], [squeeze_channels]
    computes for each label the map whose entry at [(i, j)] is the sum over
    the channels [k] of [label[i, j, k] * k], keeps a pair if and only if
    the number of distinct values of that map equals [c], and returns the
    kept images and maps in their original order; the batch that comes back
    is no longer than the one that went in.  (With no pair left the
    concatenation raises, see C9.) *)
Theorem squeeze_channels_noclip_keeps_full_pairs {I : Type}
    (images : list I) (labels : ndarray4) (n h w c : nat) :
  shape labels = (n, h, w, c) ->
  1 < c ->
  Forall (wf_rows h w) (data labels) ->
  let pairs := combine (data labels) images in
  let kept :=
    filter (fun p =>
              distinct_count (concat (weighted_map h w c (fst p))) =? c)
           pairs in
  (forall p, In p kept <->
             In p pairs /\
             distinct_count (concat (weighted_map h w c (fst p))) = c) /\
  length kept <= length (data labels) /\
  squeeze_channels images labels false
  = match kept with
    | [] => Err ValueError
    | _ :: _ =>
        Ok (map snd kept,
            Squeezed {| shape3 := (length kept, h, w);
                        data3 := map (fun p => weighted_map h w c (fst p))
                                     kept |})
    end.
Proof.
  intros Hs Hc Hwf pairs kept. split; [|split].
  - intros p. unfold kept. rewrite filter_In, Nat.eqb_eq. reflexivity.
  - unfold kept. etransitivity; [apply filter_length_le|].
    unfold pairs. rewrite length_combine. lia.
  - rewrite (squeeze_channels_noclip_spec images labels n h w c Hs) by lia.
    cbv zeta. fold pairs.
    assert (Hp : Forall (fun p : image * I => wf_rows h w (fst p)) pairs)
      by now apply combine_Forall_fst.
    rewrite (kept_pairs_full_pairs h w c pairs Hp).
    change (full_pairs h w c pairs) with kept.
    assert (Hm : map (fun p : image * I => index_map h w c (fst p)) kept
                 = map (fun p : image * I => weighted_map h w c (fst p)) kept).
    { apply map_ext_in. intros p Hin.
      apply index_map_pointwise.
      rewrite Forall_forall in Hp. apply Hp.
      unfold kept in Hin. now apply filter_In in Hin. }
    now rewrite Hm.
Qed.

Lemma squeeze_channels_noclip_keeps_full_pairs_witness :
  squeeze_channels [10; 20; 30] labels7 false
  = Ok ([10; 30],
        Squeezed {| shape3 := (2, 1, 2);
                    data3 := [[[0%Q; 1%Q]]; [[1%Q; 0%Q]]] |}).
Proof.
  assert (H2 : 1 < 2) by lia.
  assert (Hwf : Forall (wf_rows 1 2) (data labels7)).
  { repeat constructor. }
  pose proof (squeeze_channels_noclip_keeps_full_pairs
                [10; 20; 30] labels7 3 1 2 2 eq_refl H2 Hwf) as H.
  destruct H as [_ [_ H]]. exact H.
Defined.

(** C9: on a multi-channel input with [clip=False] in which no pair passes
    the all-classes-present filter, [squeeze_channels] raises the error of
    the empty concatenation instead of returning. *)
Theorem squeeze_channels_noclip_none_kept_raises {I : Type}
    (images : list I) (labels : ndarray4) (n h w c : nat) :
  shape labels = (n, h, w, c) ->
  1 < c ->
  (forall p, In p (combine (data labels) images) ->
             length (np_unique (squeeze_channels_ h w c (fst p))) <> c) ->
  squeeze_channels images labels false = Err ValueError.
Proof.
  intros Hs Hc Hnone.
  rewrite (squeeze_channels_noclip_spec images labels n h w c Hs) by lia.
  cbv zeta.
  replace (kept_pairs h w c (combine (data labels) images)) with (@nil (image * I));
    [reflexivity|].
  symmetry. unfold kept_pairs.
  induction (combine (data labels) images) as [|p ps IH]; [reflexivity|].
  simpl. unfold all_classes_present.
  destruct (Nat.eqb_spec (length (np_unique (squeeze_channels_ h w c (fst p)))) c)
    as [E | E].
  - exfalso. apply (Hnone p); [now left | exact E].
  - apply IH. intros q Hq. apply Hnone. now right.
Qed.

Lemma squeeze_channels_noclip_none_kept_raises_witness :
  squeeze_channels [10] labels9 false = Err ValueError.
Proof.
  apply (squeeze_channels_noclip_none_kept_raises [10] labels9 1 1 2 2).
  - reflexivity.
  - lia.
  - intros p [<- | []]. vm_compute. discriminate.
Defined.

Lemma top_class_nonneg (c : nat) : 1 <= c -> (0 <= top_class c)%Q.
Proof.
  intros Hc. unfold top_class.
  change 0%Q with (inject_Z 0). rewrite <- Zle_Qle. lia.
Qed.

Lemma clipped_index_map_le (h w c : nat) (ilabel : image) :
  1 <= c ->
  Forall (Forall (fun v => (v <= top_class c)%Q)) (clipped_index_map h w c ilabel).
Proof.
  intros Hc. unfold clipped_index_map.
  apply Forall_map, Forall_forall. intros row _.
  apply Forall_map, Forall_forall. intros v _.
  destruct (Qgtb v (top_class c)) eqn:E.
  - now apply top_class_nonneg.
  - now apply Qgtb_le.
Qed.

(** C8, as the code has it: on a multi-channel input with [clip=True] and
    at least one image/label pair, every pair is kept, so the batch that
    comes back has the size of the batch that went in; every index value
    greater than [c - 1] has been replaced by 0, so none is left. *)
Theorem squeeze_channels_clip_keeps_all {I : Type}
    (images : list I) (labels : ndarray4) (n h w c : nat) :
  shape labels = (n, h, w, c) ->
  1 < c ->
  length (data labels) = length images ->
  data labels <> [] ->
  squeeze_channels images labels true
  = Ok (images,
        Squeezed
          {| shape3 := (length (data labels), h, w);
             data3 :=
               map (fun label =>
                      map (map (fun v =>
                                  if Qgtb v (inject_Z (Z.of_nat c - 1))
                                  then 0%Q else v))
                          (index_map h w c label))
                   (data labels) |}) /\
  Forall (Forall (Forall (fun v => (v <= inject_Z (Z.of_nat c - 1))%Q)))
         (map (clipped_index_map h w c) (data labels)).
Proof.
  intros Hs Hc Hlen Hne. split.
  - rewrite (squeeze_channels_clip_spec images labels n h w c Hs) by lia.
    cbv zeta.
    rewrite (map_snd_combine _ _ Hlen).
    rewrite (map_fst_combine (clipped_index_map h w c) _ _ Hlen).
    rewrite length_combine, <- Hlen, Nat.min_id.
    destruct (combine (data labels) images) as [|p pairs] eqn:E; [|reflexivity].
    destruct (data labels); [congruence|].
    destruct images; discriminate.
  - apply Forall_map, Forall_forall. intros label _.
    apply clipped_index_map_le. lia.
Qed.

Lemma squeeze_channels_clip_keeps_all_witness :
  squeeze_channels [10] labels8 true
  = Ok ([10],
        Squeezed {| shape3 := (1, 1, 2); data3 := [[[2%Q; 0%Q]]] |}).
Proof.
  assert (H : 1 < 3) by lia.
  assert (Hne : data labels8 <> []) by discriminate.
  exact (proj1 (squeeze_channels_clip_keeps_all
                  [10] labels8 1 1 2 3 eq_refl H eq_refl Hne)).
Defined.

(** C8, as the claim has it, fails on the empty batch: nothing is appended,
    and the concatenation of no arrays raises instead of returning a batch
    of size 0. *)
Lemma squeeze_channels_clip_empty_batch_raises :
  shape labels_empty = (0, 1, 1, 2) /\
  squeeze_channels (@nil nat) labels_empty true = Err ValueError.
Proof. split; reflexivity. Qed.

(** ** compute_hist *)

Lemma mask_select_same {A : Type} (f : A -> bool) (x : list A) :
  mask_select (map f x) x = Ok (filter f x).
Proof.
  unfold mask_select. rewrite length_map, Nat.eqb_refl. f_equal.
  induction x as [|a x IH]; simpl; [reflexivity|].
  destruct (f a); simpl; now rewrite IH.
Qed.

Lemma mask_select_other {A B : Type} (f : A -> bool) (x : list A) (y : list B) :
  length x = length y ->
  mask_select (map f x) y
  = Ok (map snd (filter (fun ab => f (fst ab)) (combine x y))).
Proof.
  intros Hlen. unfold mask_select.
  rewrite length_map, Hlen, Nat.eqb_refl. f_equal.
  revert y Hlen. induction x as [|a x IH]; intros [|b y] Hlen; simpl in *;
    try discriminate; [reflexivity|].
  destruct (f a); simpl; rewrite IH by lia; reflexivity.
Qed.

Lemma combine_filter_fst {A B : Type} (f : A -> bool) (x : list A) (y : list B) :
  length x = length y ->
  combine (filter f x) (map snd (filter (fun ab => f (fst ab)) (combine x y)))
  = filter (fun ab => f (fst ab)) (combine x y).
Proof.
  revert y. induction x as [|a x IH]; intros [|b y] Hlen; simpl in *;
    try discriminate; [reflexivity|].
  destruct (f a); simpl; rewrite IH by lia; reflexivity.
Qed.

(** [compute_hist] in terms of the flat indices. *)
Lemma compute_hist_unfold (nb : nat) (t p : list Z) :
  compute_hist nb t p
  = if length t =? length p then
      hist <- bincount (flat_indices nb t p) (nb ^ 2) ;;
      hist <- reshape2 hist nb nb ;;
      Ok (to_float hist)
    else Err IndexError.
Proof.
  unfold compute_hist.
  change (fun t0 : Z => (0 <=? t0)%Z && (t0 <? Z.of_nat nb)%Z)
    with (valid_class nb).
  rewrite mask_select_same. simpl bind.
  destruct (Nat.eqb_spec (length t) (length p)) as [Hlen | Hlen].
  - rewrite (mask_select_other _ _ _ Hlen). simpl bind.
    rewrite (combine_filter_fst _ _ _ Hlen). reflexivity.
  - unfold mask_select. rewrite length_map.
    apply Nat.eqb_neq in Hlen. now rewrite Hlen.
Qed.

Lemma fold_max_ge (l : list Z) (x : Z) :
  In x l -> (x <= fold_right Z.max 0 l)%Z.
Proof.
  induction l as [|y l IH]; simpl; [tauto|].
  intros [-> | H]; [lia|]. specialize (IH H). lia.
Qed.

Lemma fold_max_nonneg (l : list Z) : (0 <= fold_right Z.max 0 l)%Z.
Proof. induction l as [|x l IH]; simpl; lia. Qed.

Lemma fold_max_lt (l : list Z) (b : Z) :
  (0 < b)%Z -> Forall (fun x => (x < b)%Z) l -> (fold_right Z.max 0 l < b)%Z.
Proof.
  intros Hb H. induction H as [|x l Hx _ IH]; simpl; lia.
Qed.

Lemma existsb_neg_false (l : list Z) :
  existsb (fun v => (v <? 0)%Z) l = false <-> Forall (fun x => (0 <= x)%Z) l.
Proof.
  induction l as [|x l IH]; simpl.
  - split; [constructor | reflexivity].
  - rewrite orb_false_iff, IH, Z.ltb_ge. split.
    + intros [H1 H2]. now constructor.
    + intros H. inversion H. now split.
Qed.

(** When every flat index lies in [0, nb^2) the count vector has exactly
    [nb^2] entries. *)
Lemma bincount_in_range (nb : nat) (idx : list Z) :
  Forall (fun x => (0 <= x < Z.of_nat (nb * nb))%Z) idx ->
  bincount idx (nb ^ 2)
  = Ok (tab (nb * nb) (fun k => Z.of_nat (count_occ Z.eq_dec idx (Z.of_nat k)))).
Proof.
  intros Hr. unfold bincount.
  assert (Hnn : Forall (fun x => (0 <= x)%Z) idx)
    by (eapply Forall_impl; [|exact Hr]; simpl; intros; lia).
  apply existsb_neg_false in Hnn. rewrite Hnn.
  rewrite Nat.pow_2_r.
  destruct idx as [|x idx]; [reflexivity|].
  assert (Hpos : (0 < Z.of_nat (nb * nb))%Z).
  { inversion Hr; subst. lia. }
  assert (Hm : (fold_right Z.max 0 (x :: idx) < Z.of_nat (nb * nb))%Z).
  { apply fold_max_lt; [assumption|].
    eapply Forall_impl; [|exact Hr]. simpl. intros. lia. }
  pose proof (fold_max_nonneg (x :: idx)) as H0.
  replace (Nat.max (nb * nb) (S (Z.to_nat (fold_right Z.max 0%Z (x :: idx)))))
    with (nb * nb) by lia.
  reflexivity.
Qed.

(** A flat index of [nb^2] or more makes the count vector too long. *)
Lemma bincount_overflow (nb : nat) (idx : list Z) (x : Z) :
  Forall (fun y => (0 <= y)%Z) idx ->
  In x idx -> (Z.of_nat (nb * nb) <= x)%Z ->
  exists v, bincount idx (nb ^ 2) = Ok v /\ nb * nb < length v.
Proof.
  intros Hnn Hin Hx. unfold bincount.
  apply existsb_neg_false in Hnn. rewrite Hnn.
  destruct idx as [|y idx]; [destruct Hin|].
  eexists. split; [reflexivity|].
  rewrite length_tab.
  pose proof (fold_max_ge _ _ Hin) as Hge. lia.
Qed.

Lemma reshape2_ok (v : list Z) (r c : nat) :
  length v = r * c ->
  reshape2 v r c = Ok (tab r (fun i => tab c (fun j => nth (i * c + j) v 0%Z))).
Proof.
  intros H. unfold reshape2. apply Nat.eqb_eq in H. now rewrite H.
Qed.

Lemma reshape2_err (v : list Z) (r c : nat) :
  length v <> r * c -> reshape2 v r c = Err RuntimeError.
Proof.
  intros H. unfold reshape2. apply Nat.eqb_neq in H. now rewrite H.
Qed.

(** The histogram of one pair, cell by cell: the count of the cell as a
    single-precision value. *)
Lemma compute_hist_in_range (nb : nat) (t p : list Z) :
  length t = length p ->
  Forall (fun x => (0 <= x < Z.of_nat (nb * nb))%Z) (flat_indices nb t p) ->
  compute_hist nb t p
  = Ok (tab nb (fun i => tab nb (fun j =>
          float32_of_Z (cell_count nb t p i j)))).
Proof.
  intros Hlen Hr. rewrite compute_hist_unfold.
  apply Nat.eqb_eq in Hlen. rewrite Hlen.
  rewrite (bincount_in_range _ _ Hr). simpl bind.
  rewrite reshape2_ok by apply length_tab. simpl bind.
  f_equal. unfold to_float. rewrite map_tab.
  apply tab_ext. intros i Hi. rewrite map_tab.
  apply tab_ext. intros j Hj.
  rewrite nth_tab by nia. reflexivity.
Qed.

(** Conversely, a histogram comes back only in that case. *)
Lemma compute_hist_ok_inv (nb : nat) (t p : list Z) (h : list (list Z)) :
  compute_hist nb t p = Ok h ->
  length t = length p /\
  Forall (fun x => (0 <= x < Z.of_nat (nb * nb))%Z) (flat_indices nb t p).
Proof.
  rewrite compute_hist_unfold.
  destruct (Nat.eqb_spec (length t) (length p)) as [Hlen | Hlen];
    [|discriminate].
  intros H. split; [assumption|].
  unfold bincount in H.
  destruct (existsb (fun v => (v <? 0)%Z) (flat_indices nb t p)) eqn:E;
    [discriminate|].
  apply existsb_neg_false in E.
  simpl bind in H.
  unfold reshape2 in H. rewrite length_tab in H.
  match type of H with
  | bind (if ?b then _ else _) _ = _ => destruct b eqn:Es; [|discriminate]
  end.
  apply Nat.eqb_eq in Es. clear H.
  rewrite Forall_forall in *. intros x Hx. split; [now apply E|].
  destruct (flat_indices nb t p) as [|y idx]; [destruct Hx|].
  pose proof (fold_max_ge _ _ Hx) as Hge.
  pose proof (fold_max_nonneg (y :: idx)).
  lia.
Qed.

Lemma flat_index_in_range (nb : nat) (t p : Z) :
  valid_class nb t = true ->
  (0 <= p < Z.of_nat nb)%Z ->
  (0 <= Z.of_nat nb * t + p < Z.of_nat (nb * nb))%Z.
Proof.
  unfold valid_class. rewrite andb_true_iff, Z.leb_le, Z.ltb_lt.
  intros [H1 H2] H3. nia.
Qed.

Lemma preds_in_range_flat (nb : nat) (t p : list Z) :
  preds_in_range nb t p ->
  Forall (fun x => (0 <= x < Z.of_nat (nb * nb))%Z) (flat_indices nb t p).
Proof.
  unfold preds_in_range, flat_indices. intros H.
  apply Forall_map, Forall_forall. intros tp Htp.
  rewrite Forall_forall in H.
  apply flat_index_in_range; [|now apply H].
  unfold valid_pairs in Htp. now apply filter_In in Htp.
Qed.

(** C10: [compute_hist] returns a histogram whenever every predicted value
    at a position selected by the mask is a class index; without that it
    need not: a selected position whose flat index [nb * t + p] is [nb^2]
    or more gives a count vector of more than [nb^2] entries, and the
    reshape raises instead of the position being left out.  For every
    positive number of classes the pair [t = nb - 1], [p = nb] is such an
    input. *)
Theorem compute_hist_total_only_in_range :
  (forall nb t p,
      length t = length p ->
      preds_in_range nb t p ->
      exists h, compute_hist nb t p = Ok h) /\
  (forall nb t p x,
      length t = length p ->
      Forall (fun y => (0 <= y)%Z) (flat_indices nb t p) ->
      In x (flat_indices nb t p) ->
      (Z.of_nat (nb * nb) <= x)%Z ->
      (exists v, bincount (flat_indices nb t p) (nb ^ 2) = Ok v /\
                 nb * nb < length v) /\
      compute_hist nb t p = Err RuntimeError) /\
  (forall nb, 0 < nb ->
      let t := [Z.of_nat nb - 1]%Z in
      let p := [Z.of_nat nb] in
      valid_pairs nb t p = [(Z.of_nat nb - 1, Z.of_nat nb)%Z] /\
      flat_indices nb t p = [Z.of_nat (nb * nb)] /\
      compute_hist nb t p = Err RuntimeError).
Proof.
  assert (Hgen : forall nb t p x,
      length t = length p ->
      Forall (fun y => (0 <= y)%Z) (flat_indices nb t p) ->
      In x (flat_indices nb t p) ->
      (Z.of_nat (nb * nb) <= x)%Z ->
      (exists v, bincount (flat_indices nb t p) (nb ^ 2) = Ok v /\
                 nb * nb < length v) /\
      compute_hist nb t p = Err RuntimeError).
  { intros nb t p x Hlen Hnn Hin Hx.
    destruct (bincount_overflow nb _ x Hnn Hin Hx) as [v [Hv Hl]].
    split; [now exists v|].
    rewrite compute_hist_unfold.
    apply Nat.eqb_eq in Hlen. rewrite Hlen, Hv. simpl bind.
    rewrite reshape2_err by lia. reflexivity. }
  split; [|split].
  - intros nb t p Hlen Hp. eexists.
    apply compute_hist_in_range; [assumption|].
    now apply preds_in_range_flat.
  - exact Hgen.
  - intros nb Hnb t p.
    assert (Hvp : valid_pairs nb t p = [(Z.of_nat nb - 1, Z.of_nat nb)%Z]).
    { unfold valid_pairs, t, p. simpl. unfold valid_class.
      replace (0 <=? Z.of_nat nb - 1)%Z with true by (symmetry; apply Z.leb_le; lia).
      replace (Z.of_nat nb - 1 <? Z.of_nat nb)%Z with true
        by (symmetry; apply Z.ltb_lt; lia).
      reflexivity. }
    assert (Hfi : flat_indices nb t p = [Z.of_nat (nb * nb)]).
    { unfold flat_indices. rewrite Hvp. simpl. f_equal. lia. }
    split; [assumption|]. split; [assumption|].
    apply (Hgen nb t p (Z.of_nat (nb * nb))).
    + reflexivity.
    + rewrite Hfi. constructor; [lia | constructor].
    + rewrite Hfi. now left.
    + lia.
Qed.

Lemma compute_hist_total_only_in_range_witness :
  (exists h, compute_hist 2 [0; 1; 7; 1]%Z [0; 1; -3; 0]%Z = Ok h) /\
  compute_hist 2 [1]%Z [2]%Z = Err RuntimeError.
Proof.
  destruct compute_hist_total_only_in_range as [Htot [_ Hex]].
  split.
  - apply Htot; [reflexivity|].
    unfold preds_in_range. simpl. repeat constructor; simpl; lia.
  - assert (H : 0 < 2) by lia.
    exact (proj2 (proj2 (Hex 2 H))).
Defined.

(** ** Sums over a histogram *)

Lemma zsum_app (l l' : list Z) : zsum (l ++ l') = (zsum l + zsum l')%Z.
Proof. induction l as [|x l IH]; simpl; lia. Qed.

Lemma nsum_S (n : nat) (f : nat -> Z) : nsum (S n) f = (nsum n f + f n)%Z.
Proof.
  unfold nsum, tab. rewrite seq_S, map_app, zsum_app. simpl. lia.
Qed.

Lemma nsum_ext (n : nat) (f g : nat -> Z) :
  (forall i, i < n -> f i = g i) -> nsum n f = nsum n g.
Proof. intros H. unfold nsum. now rewrite (tab_ext n f g H). Qed.

Lemma nsum_plus (n : nat) (f g : nat -> Z) :
  nsum n (fun i => (f i + g i)%Z) = (nsum n f + nsum n g)%Z.
Proof.
  induction n as [|n IH]; [reflexivity|]. rewrite !nsum_S, IH. lia.
Qed.

Lemma nsum_zero (n : nat) : nsum n (fun _ => 0%Z) = 0%Z.
Proof. induction n as [|n IH]; [reflexivity|]. rewrite nsum_S, IH. lia. Qed.

Lemma nsum_nonneg (n : nat) (f : nat -> Z) :
  (forall i, i < n -> (0 <= f i)%Z) -> (0 <= nsum n f)%Z.
Proof.
  induction n as [|n IH]; intros H; [unfold nsum; simpl; lia|].
  rewrite nsum_S. specialize (H n (Nat.lt_succ_diag_r n)) as Hn.
  assert (0 <= nsum n f)%Z by (apply IH; intros; apply H; lia). lia.
Qed.

Lemma nsum_shift (a b : nat) (f : nat -> Z) :
  nsum (a + b) f = (nsum a f + nsum b (fun k => f (a + k)%nat))%Z.
Proof.
  induction b as [|b IH].
  - rewrite Nat.add_0_r. unfold nsum at 3. simpl. lia.
  - rewrite Nat.add_succ_r, !nsum_S, IH. lia.
Qed.

(** Summing row by row is summing the flat vector. *)
Lemma nsum_rows (r c : nat) (f : nat -> Z) :
  nsum r (fun i => nsum c (fun j => f (i * c + j))) = nsum (r * c) f.
Proof.
  induction r as [|r IH]; [reflexivity|].
  rewrite nsum_S, IH.
  replace (S r * c) with (r * c + c) by lia.
  now rewrite nsum_shift.
Qed.

Lemma nsum_indicator_out (n : nat) (x : Z) :
  (Z.of_nat n <= x)%Z \/ (x < 0)%Z ->
  nsum n (fun k => if Z.eq_dec x (Z.of_nat k) then 1%Z else 0%Z) = 0%Z.
Proof.
  intros Hx. transitivity (nsum n (fun _ => 0%Z)); [|apply nsum_zero].
  apply nsum_ext. intros i Hi.
  destruct (Z.eq_dec x (Z.of_nat i)); [lia | reflexivity].
Qed.

Lemma nsum_indicator_in (n : nat) (x : Z) :
  (0 <= x < Z.of_nat n)%Z ->
  nsum n (fun k => if Z.eq_dec x (Z.of_nat k) then 1%Z else 0%Z) = 1%Z.
Proof.
  induction n as [|n IH]; intros Hx; [lia|].
  rewrite nsum_S.
  destruct (Z.eq_dec x (Z.of_nat n)) as [E | E].
  - rewrite nsum_indicator_out by lia. lia.
  - rewrite IH by lia. lia.
Qed.

(** The counts of a vector of in-range indices add up to its length. *)
Lemma nsum_count_occ (n : nat) (idx : list Z) :
  Forall (fun x => (0 <= x < Z.of_nat n)%Z) idx ->
  nsum n (fun k => Z.of_nat (count_occ Z.eq_dec idx (Z.of_nat k)))
  = Z.of_nat (length idx).
Proof.
  induction 1 as [|x idx Hx _ IH]; [apply nsum_zero|].
  rewrite (nsum_ext n _
             (fun k => ((if Z.eq_dec x (Z.of_nat k) then 1 else 0)
                        + Z.of_nat (count_occ Z.eq_dec idx (Z.of_nat k)))%Z)).
  - rewrite nsum_plus, IH, nsum_indicator_in by assumption. simpl length. lia.
  - intros i _. simpl. destruct (Z.eq_dec x (Z.of_nat i)); lia.
Qed.

Lemma total_tab (n m : nat) (f : nat -> nat -> Z) :
  total (tab n (fun i => tab m (fun j => f i j)))
  = nsum n (fun i => nsum m (fun j => f i j)).
Proof. unfold total. now rewrite map_tab. Qed.

Lemma hist_add_tab (n : nat) (f g : nat -> nat -> Z) :
  hist_add (tab n (fun i => tab n (fun j => f i j)))
           (tab n (fun i => tab n (fun j => g i j)))
  = tab n (fun i => tab n (fun j => float32_of_Z (f i j + g i j))).
Proof.
  unfold hist_add, tab. rewrite combine_map_same, map_map.
  apply map_ext. intros i. simpl.
  now rewrite combine_map_same, map_map.
Qed.

(** ** Counts in single precision *)

(** Every integer up to 2^24 is a single-precision value. *)
Lemma float32_of_Z_exact (z : Z) :
  (0 <= z <= exact_limit)%Z -> float32_of_Z z = z.
Proof.
  unfold exact_limit. intros [H0 H1]. unfold float32_of_Z.
  rewrite (Z.abs_eq z H0).
  destruct (Z.ltb_spec z (2 ^ 24)) as [Hlt | Hge]; [reflexivity|].
  assert (E : z = (2 ^ 24)%Z) by lia. subst z. reflexivity.
Qed.

Lemma round_half_even_nonneg (a d : Z) :
  (0 <= a)%Z -> (0 < d)%Z -> (0 <= round_half_even a d)%Z.
Proof.
  intros Ha Hd. unfold round_half_even.
  assert (0 <= a / d)%Z by (apply Z.div_pos; lia).
  destruct (2 * (a mod d) <? d)%Z; [assumption|].
  destruct (d <? 2 * (a mod d))%Z; [lia|].
  destruct (Z.even (a / d)); lia.
Qed.

(** Rounding a count never makes it negative. *)
Lemma float32_of_Z_nonneg (z : Z) : (0 <= z)%Z -> (0 <= float32_of_Z z)%Z.
Proof.
  intros H0. unfold float32_of_Z. rewrite (Z.abs_eq z H0).
  destruct (Z.ltb_spec z (2 ^ 24)) as [Hlt | Hge]; [assumption|].
  assert (Hz : (0 < z)%Z) by lia.
  rewrite (Z.sgn_pos z Hz), Z.mul_1_l.
  assert (Hl : (24 <= Z.log2 z)%Z).
  { change 24%Z with (Z.log2 (2 ^ 24)). now apply Z.log2_le_mono. }
  assert (Hp : (0 < 2 ^ (Z.log2 z - 23))%Z)
    by (apply Z.pow_pos_nonneg; lia).
  pose proof (round_half_even_nonneg z _ H0 Hp). nia.
Qed.
(** ** The loop of evaluate *)

Lemma cell_count_total (nb : nat) (t p : list Z) :
  pair_ok nb (t, p) ->
  nsum nb (fun i => nsum nb (fun j => cell_count nb t p i j))
  = Z.of_nat (length (filter (valid_class nb) t)).
Proof.
  intros [Hlen Hr]. simpl in Hlen, Hr. unfold cell_count.
  rewrite (nsum_rows nb nb
             (fun k => Z.of_nat (count_occ Z.eq_dec (flat_indices nb t p)
                                           (Z.of_nat k)))).
  rewrite (nsum_count_occ _ _ Hr).
  unfold flat_indices, valid_pairs. rewrite length_map. f_equal.
  clear Hr. revert p Hlen.
  induction t as [|a t IH]; intros [|b p] Hlen; simpl in *;
    try discriminate; [reflexivity|].
  destruct (valid_class nb a); simpl; rewrite (IH p) by lia; reflexivity.
Qed.

(** The accumulated histogram, cell by cell, when every pair goes through. *)
Lemma accumulate_ok (nb : nat) (pairs : list (list Z * list Z)) :
  Forall (pair_ok nb) pairs ->
  forall f : nat -> nat -> Z,
    accumulate nb pairs (tab nb (fun i => tab nb (fun j => f i j)))
    = Ok (tab nb (fun i => tab nb (fun j =>
            rounded_cell nb pairs (f i j) i j))).
Proof.
  induction 1 as [|[t p] pairs [Hlen Hr] _ IH]; intros f; simpl.
  - reflexivity.
  - simpl in Hlen, Hr.
    rewrite (compute_hist_in_range nb t p Hlen Hr). simpl bind.
    rewrite hist_add_tab, IH. reflexivity.
Qed.

(** The loop returns only when every pair goes through. *)
Lemma accumulate_ok_inv (nb : nat) (pairs : list (list Z * list Z)) :
  forall (h0 h : list (list Z)),
    accumulate nb pairs h0 = Ok h -> Forall (pair_ok nb) pairs.
Proof.
  induction pairs as [|[t p] pairs IH]; intros h0 h H; [constructor|].
  simpl in H.
  destruct (compute_hist nb t p) as [h1 | e] eqn:E; [|discriminate].
  simpl bind in H. constructor.
  - exact (compute_hist_ok_inv nb t p h1 E).
  - exact (IH _ _ H).
Qed.

Lemma batch_cell_total (nb : nat) (pairs : list (list Z * list Z)) :
  Forall (pair_ok nb) pairs ->
  nsum nb (fun i => nsum nb (fun j => batch_cell nb pairs i j))
  = Z.of_nat (valid_count nb pairs).
Proof.
  induction 1 as [|[t p] pairs Hok _ IH]; simpl.
  - transitivity (nsum nb (fun _ => 0%Z)); [|apply nsum_zero].
    apply nsum_ext. intros i _. apply nsum_zero.
  - rewrite (nsum_ext nb _
               (fun i => (nsum nb (fun j => cell_count nb t p i j)
                          + nsum nb (fun j => batch_cell nb pairs i j))%Z))
      by (intros i _; apply nsum_plus).
    rewrite nsum_plus, IH, (cell_count_total nb t p Hok). lia.
Qed.

Lemma batch_cell_nonneg (nb : nat) (pairs : list (list Z * list Z)) (i j : nat) :
  (0 <= batch_cell nb pairs i j)%Z.
Proof.
  induction pairs as [|[t p] pairs IH]; simpl; [lia|].
  unfold cell_count. lia.
Qed.

Lemma rounded_cell_nonneg (nb : nat) (pairs : list (list Z * list Z))
    (i j : nat) :
  forall z, (0 <= z)%Z -> (0 <= rounded_cell nb pairs z i j)%Z.
Proof.
  induction pairs as [|[t p] pairs IH]; intros z Hz; simpl; [assumption|].
  apply IH. apply float32_of_Z_nonneg.
  assert (0 <= float32_of_Z (cell_count nb t p i j))%Z
    by (apply float32_of_Z_nonneg; unfold cell_count; lia).
  lia.
Qed.

(** A cell of one pair counts some of the positions the mask selects. *)
Lemma cell_count_le (nb : nat) (t p : list Z) (i j : nat) :
  (0 <= cell_count nb t p i j
   <= Z.of_nat (length (filter (valid_class nb) t)))%Z.
Proof.
  unfold cell_count. split; [lia|]. apply inj_le.
  etransitivity; [apply count_occ_bound|].
  unfold flat_indices, valid_pairs. rewrite length_map.
  revert p. induction t as [|a t IH]; intros [|b p];
    cbn [combine filter length fst]; try lia.
  specialize (IH p). destruct (valid_class nb a); cbn [length]; lia.
Qed.

(** As long as the positions that are counted number at most 2^24, no
    rounding takes place: the cell is the sum of the counts of the pairs. *)
Lemma rounded_cell_exact (nb : nat) (pairs : list (list Z * list Z))
    (i j : nat) :
  forall z,
    (0 <= z)%Z ->
    (z + Z.of_nat (valid_count nb pairs) <= exact_limit)%Z ->
    rounded_cell nb pairs z i j = (z + batch_cell nb pairs i j)%Z.
Proof.
  induction pairs as [|[t p] pairs IH]; intros z Hz Hb; simpl; [lia|].
  simpl in Hb.
  pose proof (cell_count_le nb t p i j) as Hc.
  rewrite (float32_of_Z_exact (cell_count nb t p i j)) by lia.
  rewrite (float32_of_Z_exact (z + cell_count nb t p i j)) by lia.
  rewrite IH by lia. lia.
Qed.

(** The histogram of the stored batch, whenever [evaluate] gets one. *)
Lemma batch_hist_ok (self : IoU) :
  Forall (pair_ok (self_nb_classes self)) (batch_pairs self) ->
  batch_hist self
  = Ok (tab (self_nb_classes self) (fun i =>
          tab (self_nb_classes self) (fun j =>
            rounded_cell (self_nb_classes self) (batch_pairs self) 0 i j))).
Proof.
  intros H. unfold batch_hist, hist_zeros. fold (batch_pairs self).
  now rewrite (accumulate_ok _ _ H (fun _ _ => 0%Z)).
Qed.

(** The same on a batch of at most 2^24 counted positions: the exact
    counts. *)
Lemma batch_hist_exact (self : IoU) :
  Forall (pair_ok (self_nb_classes self)) (batch_pairs self) ->
  (Z.of_nat (valid_count (self_nb_classes self) (batch_pairs self))
   <= exact_limit)%Z ->
  batch_hist self
  = Ok (tab (self_nb_classes self) (fun i =>
          tab (self_nb_classes self) (fun j =>
            batch_cell (self_nb_classes self) (batch_pairs self) i j))).
Proof.
  intros H Hb. rewrite (batch_hist_ok self H). f_equal.
  apply tab_ext. intros i _. apply tab_ext. intros j _.
  now rewrite rounded_cell_exact by lia.
Qed.

(** C4, as the code has it: whenever [evaluate] gets its accumulated
    histogram, no entry of it is negative, and on a batch of at most 2^24
    positions whose true value is a class index its entries add up to the
    number of those positions; and it does get one on every batch whose
    items have matching sizes and whose predicted values at those positions
    are class indices. *)
Theorem batch_hist_total_is_valid_count (self : IoU) :
  (forall hist,
      batch_hist self = Ok hist ->
      Forall (Forall (fun v => (0 <= v)%Z)) hist /\
      ((Z.of_nat (valid_count (self_nb_classes self) (batch_pairs self))
        <= 2 ^ 24)%Z ->
       total hist
       = Z.of_nat (valid_count (self_nb_classes self) (batch_pairs self)))) /\
  ((forall t p, In (t, p) (batch_pairs self) ->
                length t = length p /\
                preds_in_range (self_nb_classes self) t p) ->
   exists hist, batch_hist self = Ok hist).
Proof.
  split.
  - intros hist H.
    assert (Hok : Forall (pair_ok (self_nb_classes self)) (batch_pairs self))
      by exact (accumulate_ok_inv _ _ _ _ H).
    split.
    + rewrite (batch_hist_ok self Hok) in H. injection H as <-.
      apply Forall_tab. intros i _. apply Forall_tab. intros j _.
      apply rounded_cell_nonneg. lia.
    + intros Hb. rewrite (batch_hist_exact self Hok Hb) in H.
      injection H as <-.
      rewrite total_tab. now apply batch_cell_total.
  - intros H. eexists. apply batch_hist_ok.
    apply Forall_forall. intros [t p] Hin.
    destruct (H t p Hin) as [Hlen Hp].
    split; [exact Hlen|]. now apply preds_in_range_flat.
Qed.

Lemma batch_hist_total_is_valid_count_witness :
  total [[1; 0]; [1; 1]]%Z = Z.of_nat (valid_count 2 (batch_pairs self4)) /\
  exists hist, batch_hist self4 = Ok hist.
Proof.
  destruct (batch_hist_total_is_valid_count self4) as [H1 H2]. split.
  - apply (H1 [[1; 0]; [1; 1]]%Z); [reflexivity|].
    vm_compute. discriminate.
  - apply H2. intros t p [E | []]. inversion E. split; [reflexivity|].
    unfold preds_in_range. simpl. repeat constructor; simpl; lia.
Defined.

(** *** A batch of more than 2^24 positions *)

Lemma valid_pairs_zeros (n : nat) :
  valid_pairs 2 (repeat 0%Z n) (repeat 0%Z n) = repeat (0%Z, 0%Z) n.
Proof.
  unfold valid_pairs. induction n as [|n IH]; [reflexivity|].
  simpl. now rewrite IH.
Qed.

Lemma flat_indices_zeros (n : nat) :
  flat_indices 2 (repeat 0%Z n) (repeat 0%Z n) = repeat 0%Z n.
Proof.
  unfold flat_indices. rewrite valid_pairs_zeros.
  now rewrite map_repeat.
Qed.

Lemma cell_count_zeros (n i j : nat) :
  cell_count 2 (repeat 0%Z n) (repeat 0%Z n) i j
  = if (i * 2 + j =? 0)%nat then Z.of_nat n else 0%Z.
Proof.
  unfold cell_count. rewrite flat_indices_zeros.
  destruct (Nat.eqb_spec (i * 2 + j) 0) as [E | E].
  - rewrite E. now rewrite count_occ_repeat_eq.
  - rewrite count_occ_repeat_neq by lia. reflexivity.
Qed.

Lemma valid_count_zeros (n : nat) :
  valid_count 2 (batch_pairs (self_zeros n)) = n.
Proof.
  unfold batch_pairs, valid_count. simpl. rewrite Nat.add_0_r.
  induction n as [|n IH]; [reflexivity|]. simpl. now rewrite IH.
Qed.

(** The histogram of [n] positions of class 0 that are predicted as class
    0: the count [n], rounded. *)
Lemma batch_hist_zeros (n : nat) :
  batch_hist (self_zeros n)
  = Ok [[float32_of_Z (float32_of_Z (Z.of_nat n)); 0%Z]; [0%Z; 0%Z]].
Proof.
  rewrite batch_hist_ok.
  - change (self_nb_classes (self_zeros n)) with 2.
    change (batch_pairs (self_zeros n))
      with [(repeat 0%Z n, repeat 0%Z n)].
    unfold tab. cbn [seq map rounded_cell fst snd].
    rewrite !cell_count_zeros. reflexivity.
  - change (self_nb_classes (self_zeros n)) with 2.
    change (batch_pairs (self_zeros n))
      with [(repeat 0%Z n, repeat 0%Z n)].
    constructor; [|constructor]. split; cbn [fst snd]; [reflexivity|].
    rewrite flat_indices_zeros. apply Forall_forall.
    intros x Hx. apply repeat_spec in Hx. subst x. simpl. lia.
Qed.

(** C4, as the claim has it, fails: the histogram is kept in single
    precision, and on one item of 2^24 + 1 positions of class 0, all
    predicted as class 0, the entries of the accumulated histogram add up
    to 2^24, one less than the number of valid positions. *)
Lemma batch_hist_total_rounds :
  batch_hist (self_zeros many) = Ok [[16777216; 0]; [0; 0]]%Z /\
  total [[16777216; 0]; [0; 0]]%Z = 16777216%Z /\
  Z.of_nat (valid_count 2 (batch_pairs (self_zeros many))) = 16777217%Z.
Proof.
  assert (Hn : Z.of_nat many = 16777217%Z)
    by (unfold many; apply Z2Nat.id; lia).
  split; [|split].
  - rewrite batch_hist_zeros, Hn. reflexivity.
  - reflexivity.
  - now rewrite valid_count_zeros.
Qed.
(** ** The Jaccard vector *)

Lemma jaccard_tab (nb : nat) (c : nat -> nat -> Z) :
  jaccard (tab nb (fun i => tab nb (fun j => c i j)))
  = tab nb (fun i =>
      fdiv (inject_Z (c i i))
           (inject_Z (nsum nb (fun j => c i j))
            + inject_Z (nsum nb (fun k => c k i))
            - inject_Z (c i i) + eps)%Q).
Proof.
  unfold jaccard.
  assert (Hd : diag (tab nb (fun i => tab nb (fun j => c i j)))
               = tab nb (fun i => c i i)).
  { unfold diag. rewrite length_tab. apply tab_ext. intros i Hi.
    now rewrite (nth_tab nb _ i), (nth_tab nb _ i). }
  assert (H1 : sum_dim1 (tab nb (fun i => tab nb (fun j => c i j)))
               = tab nb (fun i => nsum nb (fun j => c i j))).
  { unfold sum_dim1. now rewrite map_tab. }
  assert (H0 : sum_dim0 (tab nb (fun i => tab nb (fun j => c i j)))
               = tab nb (fun i => nsum nb (fun k => c k i))).
  { unfold sum_dim0.
    replace (length (hd [] (tab nb (fun i => tab nb (fun j => c i j)))))
      with nb.
    - apply tab_ext. intros j Hj. rewrite map_tab. unfold nsum. f_equal.
      apply tab_ext. intros i Hi. now rewrite (nth_tab nb _ j).
    - destruct nb as [|n]; [reflexivity|].
      unfold tab at 1. simpl hd. now rewrite length_tab. }
  rewrite Hd, H1, H0. unfold tab.
  now rewrite !combine_map_same, map_map.
Qed.

Lemma nsum_ge_term (n : nat) (f : nat -> Z) (i : nat) :
  (forall j, j < n -> (0 <= f j)%Z) -> i < n -> (f i <= nsum n f)%Z.
Proof.
  induction n as [|n IH]; intros Hf Hi; [lia|].
  rewrite nsum_S.
  assert (H0 : (0 <= nsum n f)%Z) by (apply nsum_nonneg; intros; apply Hf; lia).
  destruct (Nat.eq_dec i n) as [-> | Hne]; [lia|].
  assert (f i <= nsum n f)%Z by (apply IH; [intros; apply Hf; lia | lia]).
  specialize (Hf n (Nat.lt_succ_diag_r n)). lia.
Qed.

Lemma fdiv_pos (a b : Q) : (0 < b)%Q -> fdiv a b = Fin (a / b)%Q.
Proof.
  intros Hb. unfold fdiv.
  destruct (Qeq_bool b 0) eqn:E; [|reflexivity].
  apply Qeq_bool_iff in E. rewrite E in Hb. now apply Qlt_irrefl in Hb.
Qed.

Lemma eps_pos : (0 < eps)%Q.
Proof. reflexivity. Qed.

(** The denominator [A + B - A_inter_B + 1e-10] is positive. *)
Lemma denominator_pos (nb : nat) (c : nat -> nat -> Z) (i : nat) :
  (forall a b, (0 <= c a b)%Z) -> i < nb ->
  (0 < inject_Z (nsum nb (fun j => c i j))
       + inject_Z (nsum nb (fun k => c k i))
       - inject_Z (c i i) + eps)%Q.
Proof.
  intros Hc Hi.
  assert (H1 : (c i i <= nsum nb (fun j => c i j))%Z)
    by (apply (nsum_ge_term nb (fun j => c i j) i); auto).
  assert (H2 : (0 <= nsum nb (fun k => c k i))%Z)
    by (apply nsum_nonneg; auto).
  rewrite Zle_Qle in H1, H2. change (inject_Z 0) with 0%Q in H2.
  pose proof eps_pos. lra.
Qed.

(** With non-negative counts no entry of the Jaccard vector is special. *)
Lemma jaccard_finite (nb : nat) (c : nat -> nat -> Z) :
  (forall a b, (0 <= c a b)%Z) ->
  jaccard (tab nb (fun i => tab nb (fun j => c i j)))
  = map Fin (jaccard_q nb c).
Proof.
  intros Hc. rewrite jaccard_tab. unfold jaccard_q. rewrite map_tab.
  apply tab_ext. intros i Hi.
  apply fdiv_pos. now apply denominator_pos.
Qed.

Lemma filter_self_equal_Fin (l : list Q) :
  filter self_equal (map Fin l) = map Fin l.
Proof. induction l as [|q l IH]; simpl; congruence. Qed.

Lemma filter_self_equal_no_nan (l : list fval) :
  ~ In NaN (filter self_equal l).
Proof. intros H. apply filter_In in H. destruct H as [_ H]. discriminate H. Qed.

Lemma fold_fadd_Fin (l : list Q) (a : Q) :
  fold_left fadd (map Fin l) (Fin a) = Fin (fold_left Qplus l a).
Proof.
  revert a. induction l as [|q l IH]; intros a; simpl; [reflexivity|].
  apply IH.
Qed.

Lemma fmean_Fin (l : list Q) :
  l <> [] ->
  fmean (map Fin l) = Fin (qsum l / inject_Z (Z.of_nat (length l)))%Q.
Proof.
  intros Hne. destruct l as [|q l]; [congruence|].
  pose proof (fold_fadd_Fin (q :: l) 0%Q) as H.
  unfold fmean. simpl map in *. rewrite H.
  simpl length. now rewrite length_map.
Qed.

Lemma inject_Z_succ (n : nat) :
  (inject_Z (Z.of_nat (S n)) == inject_Z (Z.of_nat n) + 1)%Q.
Proof. rewrite Nat2Z.inj_succ. unfold Z.succ. now rewrite inject_Z_plus. Qed.

Lemma fold_Qplus_upper (hi : Q) (l : list Q) :
  Forall (fun q => (q <= hi)%Q) l ->
  forall a, (fold_left Qplus l a <= a + hi * inject_Z (Z.of_nat (length l)))%Q.
Proof.
  induction 1 as [|q l Hq _ IH]; intros a.
  - simpl. change (inject_Z 0) with 0%Q. lra.
  - simpl fold_left. simpl length. specialize (IH (a + q)%Q).
    rewrite inject_Z_succ. nra.
Qed.

(** ** Classes that do not occur *)

Lemma flat_index_inj (nb i j : nat) (a b : Z) :
  j < nb -> (0 <= b < Z.of_nat nb)%Z ->
  Z.of_nat (i * nb + j) = (Z.of_nat nb * a + b)%Z ->
  a = Z.of_nat i /\ b = Z.of_nat j.
Proof.
  intros Hj Hb H.
  rewrite Nat2Z.inj_add, Nat2Z.inj_mul in H.
  assert (Ha : a = Z.of_nat i).
  { destruct (Z.lt_trichotomy a (Z.of_nat i)) as [Hlt | [Heq | Hgt]];
      [exfalso; nia | assumption | exfalso; nia]. }
  subst a. split; [reflexivity | lia].
Qed.

(** With predictions in range, cell [(i, i)] is empty when class [i] does
    not occur among the true values. *)
Lemma cell_count_diag_absent (nb : nat) (t p : list Z) (i : nat) :
  i < nb -> preds_in_range nb t p -> ~ In (Z.of_nat i) t ->
  cell_count nb t p i i = 0%Z.
Proof.
  intros Hi Hp Habs. unfold cell_count.
  rewrite (proj1 (count_occ_not_In Z.eq_dec _ _)); [reflexivity|].
  intros Hin. unfold flat_indices in Hin. apply in_map_iff in Hin.
  destruct Hin as [[a b] [Hx Hin]]. simpl in Hx.
  unfold preds_in_range in Hp. rewrite Forall_forall in Hp.
  specialize (Hp _ Hin). simpl in Hp.
  destruct (flat_index_inj nb i i a b Hi Hp (eq_sym Hx)) as [-> _].
  apply filter_In in Hin. destruct Hin as [Hin _].
  apply Habs. exact (in_combine_l _ _ _ _ Hin).
Qed.

(** A cell that no pair of the batch counts stays 0. *)
Lemma rounded_cell_zero (nb : nat) (pairs : list (list Z * list Z))
    (i j : nat) :
  (forall t p, In (t, p) pairs -> cell_count nb t p i j = 0%Z) ->
  rounded_cell nb pairs 0 i j = 0%Z.
Proof.
  induction pairs as [|[t p] pairs IH]; intros H; [reflexivity|].
  simpl. rewrite (H t p (or_introl eq_refl)).
  change (float32_of_Z (0 + float32_of_Z 0)) with 0%Z.
  apply IH. intros t' p' Hin. apply H. now right.
Qed.

Lemma jaccard_q_nth (nb : nat) (c : nat -> nat -> Z) (i : nat) :
  i < nb ->
  nth i (map Fin (jaccard_q nb c)) NaN
  = Fin (inject_Z (c i i)
         / (inject_Z (nsum nb (fun j => c i j))
            + inject_Z (nsum nb (fun k => c k i))
            - inject_Z (c i i) + eps))%Q.
Proof.
  intros Hi. unfold jaccard_q. rewrite map_tab. now rewrite nth_tab.
Qed.

(** C3: after [IoU.__init__] on one background pixel predicted as
    background, class 1 occurs in neither map, yet its entry of the Jaccard
    vector is 0, not NaN: the constant 1e-10 of the denominator keeps the
    division 0 / 0 from taking place, so the filter [jcd == jcd] drops
    nothing and the entry is counted in the mean. *)
Lemma jaccard_absent_class_not_nan :
  IoU_init no_activation no_activation true_background pred_background
           false (1 # 2)%Q = Ok self_background /\
  class_absent self_background 1 /\
  batch_hist self_background = Ok [[1; 0]; [0; 0]]%Z /\
  nth 1 (jaccard [[1; 0]; [0; 0]]%Z) NaN = Fin 0%Q /\
  nth 1 (jaccard [[1; 0]; [0; 0]]%Z) NaN <> NaN /\
  filter self_equal (jaccard [[1; 0]; [0; 0]]%Z) = jaccard [[1; 0]; [0; 0]]%Z.
Proof.
  split; [reflexivity|]. split.
  - intros t p [E | []]. inversion E. simpl.
    split; intros [F | []]; discriminate.
  - split; [reflexivity|]. split; [reflexivity|].
    split; [discriminate | reflexivity].
Qed.

(** C2: after [IoU.__init__] on one background pixel predicted as
    background, the stored prediction equals the stored ground truth, and
    [evaluate] returns 1/2 up to the constant of the denominator, not 1:
    class 1, which does not occur, scores 0 instead of NaN and is averaged
    in. *)
Lemma perfect_prediction_absent_class_half :
  IoU_init no_activation no_activation true_background pred_background
           false (1 # 2)%Q = Ok self_background /\
  perfect_prediction self_background /\
  jaccard [[1; 0]; [0; 0]]%Z
  = [Fin (10000000000 # 10000000001)%Q; Fin 0%Q] /\
  evaluate self_background = Ok (Fin (10000000000 # 20000000002)%Q) /\
  ((10000000000 # 20000000002) <= 1 # 2)%Q /\
  ~ ((10000000000 # 20000000002) == 1)%Q.
Proof.
  split; [reflexivity|]. split; [reflexivity|]. split; [reflexivity|].
  split; [reflexivity|].
  split; [intros H; discriminate H | intros H; discriminate H].
Qed.

Lemma Forall_and_l {A : Type} (P Q : A -> Prop) (l : list A) :
  Forall (fun a => P a /\ Q a) l -> Forall P l /\ Forall Q l.
Proof. intros H. split; (eapply Forall_impl; [|exact H]); simpl; tauto. Qed.
(** ** IoU.__init__ *)

Lemma madd_matrix_of (P Q R : Q -> Prop) (h w : nat) (a b : matrix) :
  (forall u v, P u -> Q v -> R (u + v)%Q) ->
  matrix_of P h w a -> matrix_of Q h w b -> matrix_of R h w (madd a b).
Proof.
  intros HR [Ha1 Ha2] [Hb1 Hb2]. unfold madd. split.
  - rewrite length_map, length_combine. lia.
  - apply Forall_map, Forall_forall. intros [ra rb] Hin.
    rewrite Forall_forall in Ha2, Hb2.
    destruct (Ha2 ra (in_combine_l _ _ _ _ Hin)) as [Hla Hpa].
    destruct (Hb2 rb (in_combine_r _ _ _ _ Hin)) as [Hlb Hpb].
    simpl. split.
    + rewrite length_map, length_combine. lia.
    + apply Forall_map, Forall_forall. intros [u v] Huv.
      rewrite Forall_forall in Hpa, Hpb. simpl.
      apply HR; [apply Hpa | apply Hpb].
      * exact (in_combine_l _ _ _ _ Huv).
      * exact (in_combine_r _ _ _ _ Huv).
Qed.

Lemma is_count_step (k : nat) (u v : Q) :
  is_count u -> v = 0%Q \/ v = 1%Q ->
  is_count (u + v * inject_Z (Z.of_nat k))%Q.
Proof.
  intros [a [Ha Hu]] [-> | ->].
  - exists a. split; [assumption|]. rewrite Hu. ring.
  - exists (a + Z.of_nat k)%Z. split; [lia|].
    rewrite Hu, inject_Z_plus. ring.
Qed.

(** Channel [k] of a thresholded image, scaled by [k]. *)
Lemma scaled_channel_matrix_of (thresh : Q) (c h w : nat) (x : image) (k : nat) :
  matrix_of (fun v => exists b, (b = 0%Q \/ b = 1%Q) /\
                                v = (b * inject_Z (Z.of_nat k))%Q)
            h w (scale (channel (threshold_image thresh c h w x) k) k).
Proof.
  unfold scale, channel, threshold_image. rewrite !map_tab. split.
  - apply length_tab.
  - apply Forall_tab. intros i _. rewrite !map_tab. split.
    + apply length_tab.
    + apply Forall_tab. intros j _.
      eexists. split; [|reflexivity].
      apply nth_Forall; [|now left].
      apply Forall_tab. intros k' _. unfold thresh_binary.
      destruct (above _ _); auto.
Qed.

(** The index map of a thresholded image: h x w natural numbers. *)
Lemma index_map_thresholded (thresh : Q) (c h w : nat) (x : image) :
  matrix_of is_count h w (index_map h w c (threshold_image thresh c h w x)).
Proof.
  unfold index_map.
  assert (H0 : matrix_of is_count h w (tab h (fun _ => tab w (fun _ => 0%Q)))).
  { split; [apply length_tab|]. apply Forall_tab. intros i _.
    split; [apply length_tab|]. apply Forall_tab. intros j _.
    exists 0%Z. split; [lia | reflexivity]. }
  revert H0. generalize (tab h (fun _ : nat => tab w (fun _ : nat => 0%Q))).
  induction (seq 0 c) as [|k ks IH]; intros m Hm; simpl; [assumption|].
  apply IH.
  eapply madd_matrix_of; [|exact Hm|apply scaled_channel_matrix_of].
  intros u v Hu [b [Hb ->]]. now apply is_count_step.
Qed.

Lemma to_long_count (v : Q) (k : Z) :
  (0 <= k)%Z -> (v == inject_Z k)%Q -> to_long v = k.
Proof.
  intros Hk Hv. unfold to_long.
  destruct (Qlt_le_dec v 0) as [Hneg | _].
  - exfalso. rewrite Hv in Hneg. change 0%Q with (inject_Z 0) in Hneg.
    rewrite <- Zlt_Qlt in Hneg. lia.
  - rewrite Hv. apply Qfloor_Z.
Qed.

(** After the clip and the cast, every entry is a class index. *)
Lemma clipped_entry_class_index (c : nat) (v : Q) :
  1 <= c -> is_count v ->
  (0 <= to_long (if Qgtb v (top_class c) then 0%Q else v) < Z.of_nat c)%Z.
Proof.
  intros Hc [k [Hk Hv]].
  destruct (Qgtb v (top_class c)) eqn:E.
  - rewrite (to_long_count 0%Q 0%Z); [lia | lia | reflexivity].
  - rewrite (to_long_count v k Hk Hv).
    apply Qgtb_le in E. unfold top_class in E.
    rewrite Hv, <- Zle_Qle in E. lia.
Qed.

Lemma length_concat_uniform {A : Type} (h w : nat) (m : list (list A)) :
  length m = h -> Forall (fun row => length row = w) m ->
  length (concat m) = h * w.
Proof.
  intros Hh Hw. subst h. induction Hw as [|row m Hrow _ IH]; [reflexivity|].
  simpl. rewrite length_app, IH, Hrow. reflexivity.
Qed.

(** One item of the stored prediction. *)
Lemma stored_pred_item (thresh : Q) (c h w : nat) (x : image) :
  1 <= c ->
  let item := map to_long
                (concat (clipped_index_map h w c
                           (threshold_image thresh c h w x))) in
  length item = h * w /\ Forall (fun z => (0 <= z < Z.of_nat c)%Z) item.
Proof.
  intros Hc item.
  destruct (index_map_thresholded thresh c h w x) as [Hh Hrows].
  unfold item, clipped_index_map. split.
  - rewrite length_map. apply length_concat_uniform.
    + now rewrite length_map.
    + apply Forall_map. eapply Forall_impl; [|exact Hrows].
      simpl. intros row [Hl _]. now rewrite length_map.
  - apply Forall_map, Forall_concat, Forall_map.
    eapply Forall_impl; [|exact Hrows]. simpl. intros row [_ Hrow].
    apply Forall_map. eapply Forall_impl; [|exact Hrow]. simpl.
    intros v Hv. now apply clipped_entry_class_index.
Qed.

Lemma squeeze_channels_clip_full {I : Type} (images : list I)
    (labels : ndarray4) (n h w c : nat) :
  shape labels = (n, h, w, c) ->
  c <> 1 ->
  length (data labels) = length images ->
  data labels <> [] ->
  squeeze_channels images labels true
  = Ok (images,
        Squeezed {| shape3 := (length (data labels), h, w);
                    data3 := map (clipped_index_map h w c) (data labels) |}).
Proof.
  intros Hs Hc Hlen Hne.
  rewrite (squeeze_channels_clip_spec images labels n h w c Hs Hc).
  cbv zeta.
  rewrite (map_snd_combine _ _ Hlen).
  rewrite (map_fst_combine (clipped_index_map h w c) _ _ Hlen).
  rewrite length_combine, <- Hlen, Nat.min_id.
  destruct (combine (data labels) images) as [|p pairs] eqn:E; [|reflexivity].
  destruct (data labels); [congruence|].
  destruct images; discriminate.
Qed.

(** C1, as the code has it: when the thresholded predictions have more than
    one channel (and the batch is not empty, nor are its images),
    [IoU.__init__] passes
    [(true, pred)] through [squeeze_channels] with [clip=True]; the stored
    prediction is then a stack of [n] maps of [h] x [w] class indices below
    [c], while the stored ground truth is the ground truth it was given,
    cast to integers, its shape untouched: the normalizer squeezes its
    second argument only. *)
Theorem IoU_init_squeezes_pred_only (softmax sigmoid : ndarray4 -> ndarray4)
    (true_ : ndarray) (pred : ndarray4) (activation : bool) (thresh : Q)
    (n c h w : nat) (rest : list nat) :
  shape pred = (n, c, h, w) ->
  length (data pred) = n ->
  1 < c ->
  0 < n ->
  0 < h ->
  0 < w ->
  nshape true_ = n :: rest ->
  length (nitems true_) = n ->
  (forall a, shape (softmax a) = shape a /\
             length (data (softmax a)) = length (data a)) ->
  let scores := if activation then softmax pred else pred in
  exists st y labs,
    IoU_init softmax sigmoid true_ pred activation thresh = Ok st /\
    threshold_ scores thresh = Ok y /\
    squeeze_channels (nitems true_) y true = Ok (nitems true_, labs) /\
    self_nb_classes st = c /\
    self_pred st = long (of_labels_out labs) /\
    class_index_map n h w c (self_pred st) /\
    self_true st = long true_.
Proof.
  intros Hs Hn Hc Hpos Hh Hw Hts Htn Hsm scores.
  assert (Hc0 : 0 < c) by lia.
  assert (Hss : shape scores = (n, c, h, w)).
  { unfold scores. destruct activation; [|assumption].
    rewrite (proj1 (Hsm pred)). assumption. }
  assert (Hsn : length (data scores) = n).
  { unfold scores. destruct activation; [|assumption].
    rewrite (proj2 (Hsm pred)). assumption. }
  pose proof (threshold_spec scores thresh n c h w Hss Hc0 Hh Hw) as Hth.
  set (y := {| shape := (n, h, w, c);
               data := map (threshold_image thresh c h w) (data scores) |})
    in Hth.
  assert (Hyn : length (data y) = n) by (simpl; now rewrite length_map).
  assert (Hsq : squeeze_channels (nitems true_) y true
                = Ok (nitems true_,
                      Squeezed {| shape3 := (length (data y), h, w);
                                  data3 := map (clipped_index_map h w c)
                                               (data y) |})).
  { apply (squeeze_channels_clip_full (nitems true_) y n h w c).
    - reflexivity.
    - lia.
    - lia.
    - intros E. rewrite E in Hyn. simpl in Hyn. lia. }
  assert (Hinit : IoU_init softmax sigmoid true_ pred activation thresh
                  = Ok {| self_thresh := thresh;
                          self_nb_classes := c;
                          self_pred :=
                            long (of_ndarray3
                                    {| shape3 := (length (data y), h, w);
                                       data3 := map (clipped_index_map h w c)
                                                    (data y) |});
                          self_true := long true_ |}).
  { unfold IoU_init. rewrite Hs.
    assert (Hc1 : (1 <? c) = true) by (apply Nat.ltb_lt; lia).
    assert (Hc2 : (c =? 1) = false) by (apply Nat.eqb_neq; lia).
    rewrite Hc1, Hc2. fold scores. rewrite Hth. simpl bind.
    rewrite Hc1, Hsq. simpl bind. simpl fst. simpl snd.
    rewrite Htn, Hts. simpl tl.
    destruct true_ as [ts ti]. simpl in Hts. subst ts. reflexivity. }
  eexists. exists y. eexists.
  split; [exact Hinit|]. split; [exact Hth|]. split; [exact Hsq|].
  split; [reflexivity|]. split; [reflexivity|]. split; [|reflexivity].
  simpl self_pred. unfold class_index_map, long, of_ndarray3. simpl.
  rewrite !length_map. split; [now rewrite Hsn|]. split; [exact Hsn|].
  rewrite !map_map. apply Forall_map, Forall_forall. intros x _.
  apply (stored_pred_item thresh c h w x). lia.
Qed.

Lemma IoU_init_squeezes_pred_only_witness :
  exists st y labs,
    IoU_init no_activation no_activation true_index pred_onehot false (1 # 2)%Q
    = Ok st /\
    threshold_ pred_onehot (1 # 2)%Q = Ok y /\
    squeeze_channels (nitems true_index) y true
    = Ok (nitems true_index, labs) /\
    self_nb_classes st = 2 /\
    self_pred st = long (of_labels_out labs) /\
    class_index_map 1 1 1 2 (self_pred st) /\
    self_true st = long true_index.
Proof.
  apply (IoU_init_squeezes_pred_only no_activation no_activation
           true_index pred_onehot false (1 # 2)%Q 1 2 1 1 [1; 1]).
  - reflexivity.
  - reflexivity.
  - lia.
  - lia.
  - lia.
  - lia.
  - reflexivity.
  - reflexivity.
  - intros a. split; reflexivity.
Defined.

(** C1, as the claim has it, fails for the ground truth: given a one-hot
    ground truth of the shape (1, 2, 1, 1) of the scores, [IoU.__init__]
    stores a prediction of shape (1, 1, 1) and a ground truth still of
    shape (1, 2, 1, 1), which is no stack of 1 x 1 index maps. *)
Lemma IoU_init_true_not_squeezed :
  IoU_init no_activation no_activation true_onehot pred_onehot false (1 # 2)%Q
  = Ok self_onehot /\
  tshape (self_pred self_onehot) = [1; 1; 1] /\
  tshape (self_true self_onehot) = [1; 2; 1; 1] /\
  ~ class_index_map 1 1 1 2 (self_true self_onehot).
Proof.
  split; [reflexivity|]. split; [reflexivity|]. split; [reflexivity|].
  intros [H _]. discriminate H.
Qed.

(** * Further properties *)

(** ** compute_hist: errors, masked positions, meaning of a cell *)

Lemma forallb_index_fits (nb : nat) (l : list Z) :
  forallb (index_fits nb) l = true <->
  Forall (fun x => (0 <= x < Z.of_nat (nb * nb))%Z) l.
Proof.
  rewrite forallb_forall, Forall_forall. unfold index_fits.
  split; intros H x Hx; specialize (H x Hx).
  - rewrite andb_true_iff, Z.leb_le, Z.ltb_lt in H. exact H.
  - rewrite andb_true_iff, Z.leb_le, Z.ltb_lt. exact H.
Qed.

Lemma bincount_negative (idx : list Z) (m : nat) (x : Z) :
  In x idx -> (x < 0)%Z -> bincount idx m = Err RuntimeError.
Proof.
  intros Hin Hx. unfold bincount.
  replace (existsb (fun v => (v <? 0)%Z) idx) with true; [reflexivity|].
  symmetry. apply existsb_exists. exists x. split; [assumption|].
  now apply Z.ltb_lt.
Qed.

Lemma to_float_cell_matrix (nb : nat) (t p : list Z) :
  to_float (cell_matrix nb t p)
  = tab nb (fun i => tab nb (fun j => float32_of_Z (cell_count nb t p i j))).
Proof.
  unfold to_float, cell_matrix. rewrite map_tab.
  apply tab_ext. intros i _. now rewrite map_tab.
Qed.

(** With at most 2^24 positions selected by the mask, the conversion to
    single precision changes no count. *)
Lemma to_float_cell_matrix_exact (nb : nat) (t p : list Z) :
  (Z.of_nat (length (filter (valid_class nb) t)) <= 2 ^ 24)%Z ->
  to_float (cell_matrix nb t p) = cell_matrix nb t p.
Proof.
  intros Hb. rewrite to_float_cell_matrix. unfold cell_matrix.
  apply tab_ext. intros i _. apply tab_ext. intros j _.
  apply float32_of_Z_exact. unfold exact_limit.
  pose proof (cell_count_le nb t p i j). lia.
Qed.

(** [compute_hist] as a decision on sizes and flat indices. *)
Lemma compute_hist_decide (nb : nat) (t p : list Z) :
  compute_hist nb t p
  = if length t =? length p then
      if forallb (index_fits nb) (flat_indices nb t p)
      then Ok (to_float (cell_matrix nb t p))
      else Err RuntimeError
    else Err IndexError.
Proof.
  destruct (Nat.eqb_spec (length t) (length p)) as [Hlen | Hlen].
  - destruct (forallb (index_fits nb) (flat_indices nb t p)) eqn:E.
    + apply forallb_index_fits in E. rewrite to_float_cell_matrix.
      now apply compute_hist_in_range.
    + rewrite compute_hist_unfold.
      apply Nat.eqb_eq in Hlen. rewrite Hlen.
      destruct (existsb (fun v => (v <? 0)%Z) (flat_indices nb t p)) eqn:En.
      * unfold bincount. now rewrite En.
      * apply existsb_neg_false in En.
        assert (Hex : exists x, In x (flat_indices nb t p) /\
                                (Z.of_nat (nb * nb) <= x)%Z).
        { destruct (Forall_Exists_dec
                      (fun x => (x < Z.of_nat (nb * nb))%Z)
                      (fun x => Z_lt_dec x (Z.of_nat (nb * nb)))
                      (flat_indices nb t p)) as [Hall | Hex].
          - exfalso. assert (Ht : forallb (index_fits nb) (flat_indices nb t p)
                                  = true).
            { apply forallb_index_fits. rewrite Forall_forall in *.
              intros x Hx. split; [now apply En | now apply Hall]. }
            congruence.
          - apply Exists_exists in Hex. destruct Hex as [x [Hx Hge]].
            exists x. split; [assumption | lia]. }
        destruct Hex as [x [Hx Hge]].
        destruct (bincount_overflow nb _ x En Hx Hge) as [v [Hv Hl]].
        rewrite Hv. simpl bind. rewrite reshape2_err by lia. reflexivity.
  - rewrite compute_hist_unfold. apply Nat.eqb_neq in Hlen. now rewrite Hlen.
Qed.

(** X1: [compute_hist] raises IndexError exactly when the two vectors differ
    in length, raises RuntimeError exactly when they agree in length and
    some position selected by the mask has a flat index outside
    [0, nb^2), and otherwise returns the matrix of the counts of the flat
    indices as single-precision values; these are the counts themselves
    when at most 2^24 positions are selected by the mask. *)
Theorem compute_hist_outcomes (nb : nat) (t p : list Z) :
  (compute_hist nb t p = Err IndexError <-> length t <> length p) /\
  (compute_hist nb t p = Err RuntimeError <->
     length t = length p /\
     exists x, In x (flat_indices nb t p) /\
               ~ (0 <= x < Z.of_nat (nb * nb))%Z) /\
  (forall h, compute_hist nb t p = Ok h <->
     length t = length p /\
     Forall (fun x => (0 <= x < Z.of_nat (nb * nb))%Z) (flat_indices nb t p) /\
     h = to_float (cell_matrix nb t p)) /\
  ((Z.of_nat (length (filter (valid_class nb) t)) <= 2 ^ 24)%Z ->
   forall h, compute_hist nb t p = Ok h <->
     length t = length p /\
     Forall (fun x => (0 <= x < Z.of_nat (nb * nb))%Z) (flat_indices nb t p) /\
     h = cell_matrix nb t p).
Proof.
  cut ((compute_hist nb t p = Err IndexError <-> length t <> length p) /\
       (compute_hist nb t p = Err RuntimeError <->
          length t = length p /\
          exists x, In x (flat_indices nb t p) /\
                    ~ (0 <= x < Z.of_nat (nb * nb))%Z) /\
       (forall h, compute_hist nb t p = Ok h <->
          length t = length p /\
          Forall (fun x => (0 <= x < Z.of_nat (nb * nb))%Z)
                 (flat_indices nb t p) /\
          h = to_float (cell_matrix nb t p))).
  { intros [H1 [H2 H3]]. split; [exact H1|]. split; [exact H2|].
    split; [exact H3|]. intros Hb h.
    rewrite (H3 h), (to_float_cell_matrix_exact nb t p Hb). reflexivity. }
  rewrite compute_hist_decide.
  destruct (Nat.eqb_spec (length t) (length p)) as [Hlen | Hlen].
  - destruct (forallb (index_fits nb) (flat_indices nb t p)) eqn:E.
    + apply forallb_index_fits in E. split; [|split].
      * split; [discriminate | contradiction].
      * split; [discriminate|]. intros [_ [x [Hx Hn]]].
        rewrite Forall_forall in E. elim Hn. now apply E.
      * intros h. split.
        -- intros H. injection H as <-. auto.
        -- intros [_ [_ ->]]. reflexivity.
    + assert (Hn : ~ Forall (fun x => (0 <= x < Z.of_nat (nb * nb))%Z)
                            (flat_indices nb t p)).
      { intros H. apply forallb_index_fits in H. congruence. }
      split; [|split].
      * split; [discriminate | contradiction].
      * split; [|reflexivity]. intros _. split; [assumption|].
        apply neg_Forall_Exists_neg in Hn.
        -- apply Exists_exists in Hn. exact Hn.
        -- intros x.
           destruct (Z_le_dec 0 x); destruct (Z_lt_dec x (Z.of_nat (nb * nb)));
             [left; lia | right; lia | right; lia | right; lia].
      * intros h. split; [discriminate|]. intros [_ [H _]]. contradiction.
  - split; [|split].
    + split; [intros _; assumption | reflexivity].
    + split; [discriminate | intros [H _]; contradiction].
    + intros h. split; [discriminate | intros [H _]; contradiction].
Qed.

Lemma compute_hist_outcomes_witness :
  compute_hist 2 sample_true sample_pred = Ok [[0; 1]; [0; 1]]%Z /\
  compute_hist 2 sample_true [0; 1]%Z = Err IndexError.
Proof.
  destruct (compute_hist_outcomes 2 sample_true sample_pred)
    as [_ [_ [_ H]]].
  destruct (compute_hist_outcomes 2 sample_true [0; 1]%Z) as [H' _].
  split.
  - apply H; [vm_compute; discriminate|].
    split; [reflexivity|]. split; [|reflexivity].
    simpl. repeat constructor; simpl; lia.
  - apply H'. simpl. lia.
Defined.

Lemma valid_pairs_agree (nb : nat) (t p p' : list Z) :
  length p = length p' ->
  (forall k, valid_class nb (nth k t 0%Z) = true ->
             nth k p 0%Z = nth k p' 0%Z) ->
  valid_pairs nb t p = valid_pairs nb t p'.
Proof.
  unfold valid_pairs. revert p p'.
  induction t as [|a t IH]; intros p p' Hlen H; [reflexivity|].
  destruct p as [|b p]; destruct p' as [|b' p']; try discriminate;
    [reflexivity|].
  simpl. rewrite (IH p p').
  - destruct (valid_class nb a) eqn:E; [|reflexivity].
    specialize (H 0 E). simpl in H. now subst b'.
  - simpl in Hlen. lia.
  - intros k Hk. exact (H (S k) Hk).
Qed.

(** X2: the predicted value at a position whose true value is not a class
    index is never looked at: two prediction vectors of one length that
    agree wherever the true value lies in [0, nb) give the same result,
    histogram or exception. *)
Theorem compute_hist_ignores_masked (nb : nat) (t p p' : list Z) :
  length p = length p' ->
  (forall k, valid_class nb (nth k t 0%Z) = true ->
             nth k p 0%Z = nth k p' 0%Z) ->
  compute_hist nb t p = compute_hist nb t p'.
Proof.
  intros Hlen H. rewrite !compute_hist_decide.
  unfold cell_matrix, cell_count, flat_indices.
  rewrite (valid_pairs_agree nb t p p' Hlen H), Hlen. reflexivity.
Qed.

Lemma compute_hist_ignores_masked_witness :
  compute_hist 2 sample_true sample_pred
  = compute_hist 2 sample_true sample_pred'.
Proof.
  apply compute_hist_ignores_masked; [reflexivity|].
  intros [|[|[|k]]] Hk; try reflexivity; simpl in Hk; discriminate.
Defined.

Lemma count_flat_is_confusions (nb i j : nat) (l : list (Z * Z)) :
  i < nb -> j < nb ->
  Forall (fun tp => valid_class nb (fst tp) = true ->
                    (0 <= snd tp < Z.of_nat nb)%Z) l ->
  count_occ Z.eq_dec
    (map (fun tp => (Z.of_nat nb * fst tp + snd tp)%Z)
         (filter (fun tp => valid_class nb (fst tp)) l))
    (Z.of_nat (i * nb + j))
  = length (filter (fun tp => (fst tp =? Z.of_nat i)%Z
                              && (snd tp =? Z.of_nat j)%Z) l).
Proof.
  intros Hi Hj. induction 1 as [|[a b] l Hab _ IH]; [reflexivity|].
  simpl in Hab. simpl filter.
  destruct (valid_class nb a) eqn:Ev.
  - specialize (Hab eq_refl). simpl map. simpl count_occ.
    destruct (Z.eq_dec (Z.of_nat nb * a + b) (Z.of_nat (i * nb + j)))
      as [E | E].
    + destruct (flat_index_inj nb i j a b Hj Hab (eq_sym E)) as [-> ->].
      rewrite !Z.eqb_refl. simpl. now rewrite IH.
    + replace ((a =? Z.of_nat i)%Z && (b =? Z.of_nat j)%Z) with false;
        [exact IH|].
      symmetry. apply andb_false_iff.
      destruct (Z.eqb_spec a (Z.of_nat i)) as [-> |]; [|now left].
      destruct (Z.eqb_spec b (Z.of_nat j)) as [-> |]; [|now right].
      exfalso. apply E. lia.
  - replace (a =? Z.of_nat i)%Z with false; [exact IH|].
    symmetry. apply Z.eqb_neq. intros ->.
    unfold valid_class in Ev.
    apply andb_false_iff in Ev. rewrite Z.leb_gt, Z.ltb_ge in Ev. lia.
Qed.

(** A cell of one pair is the number of its confusions. *)
Lemma cell_count_is_confusions (nb : nat) (t p : list Z) (i j : nat) :
  preds_in_range nb t p -> i < nb -> j < nb ->
  cell_count nb t p i j = Z.of_nat (confusions t p i j).
Proof.
  intros Hp Hi Hj.
  unfold cell_count, flat_indices, valid_pairs, confusions. f_equal.
  apply count_flat_is_confusions; [assumption | assumption |].
  unfold preds_in_range, valid_pairs in Hp.
  rewrite Forall_forall in *. intros tp Hin Hv.
  apply Hp. apply filter_In. auto.
Qed.

(** X3: with vectors of one length and every predicted value at a selected
    position a class index, [compute_hist] returns the confusion matrix in
    single precision: entry [(i, j)] is the number of positions whose true
    value is [i] and whose predicted value is [j], rounded to single
    precision; it is that number itself when at most 2^24 positions are
    selected by the mask. *)
Theorem compute_hist_counts_confusions (nb : nat) (t p : list Z) :
  length t = length p ->
  preds_in_range nb t p ->
  exists h,
    compute_hist nb t p = Ok h /\
    length h = nb /\
    forall i j, i < nb -> j < nb ->
      nth j (nth i h []) 0%Z
      = float32_of_Z (Z.of_nat (confusions t p i j)) /\
      ((Z.of_nat (length (filter (valid_class nb) t)) <= 2 ^ 24)%Z ->
       nth j (nth i h []) 0%Z = Z.of_nat (confusions t p i j)).
Proof.
  intros Hlen Hp. eexists. split; [|split].
  - apply compute_hist_in_range; [assumption|].
    now apply preds_in_range_flat.
  - apply length_tab.
  - intros i j Hi Hj.
    rewrite (nth_tab nb _ i) by assumption.
    rewrite (nth_tab nb _ j) by assumption.
    rewrite (cell_count_is_confusions nb t p i j Hp Hi Hj).
    split; [reflexivity|]. intros Hb.
    apply float32_of_Z_exact. unfold exact_limit.
    pose proof (cell_count_le nb t p i j) as Hc.
    rewrite (cell_count_is_confusions nb t p i j Hp Hi Hj) in Hc. lia.
Qed.

Lemma compute_hist_counts_confusions_witness :
  exists h,
    compute_hist 2 sample_true sample_pred = Ok h /\
    length h = 2 /\
    forall i j, i < 2 -> j < 2 ->
      nth j (nth i h []) 0%Z
      = float32_of_Z (Z.of_nat (confusions sample_true sample_pred i j)) /\
      ((Z.of_nat (length (filter (valid_class 2) sample_true)) <= 2 ^ 24)%Z ->
       nth j (nth i h []) 0%Z
       = Z.of_nat (confusions sample_true sample_pred i j)).
Proof.
  apply compute_hist_counts_confusions; [reflexivity|].
  unfold preds_in_range. simpl. repeat constructor; simpl; lia.
Defined.

(** X4: a predicted value of [nb] or more is not always refused.  At a
    position of true class [t] with [t + 1 < nb], the predicted value
    [nb + j] with [j < nb] has the flat index of true class [t + 1] and
    predicted class [j], and is counted as such. *)
Theorem compute_hist_aliases_large_pred (nb t j : nat) (ts ps : list Z) :
  t + 1 < nb -> j < nb ->
  compute_hist nb (Z.of_nat t :: ts) (Z.of_nat (nb + j) :: ps)
  = compute_hist nb (Z.of_nat (t + 1) :: ts) (Z.of_nat j :: ps).
Proof.
  intros Ht Hj. rewrite !compute_hist_decide.
  assert (Hv1 : valid_class nb (Z.of_nat t) = true).
  { unfold valid_class. rewrite andb_true_iff, Z.leb_le, Z.ltb_lt. lia. }
  assert (Hv2 : valid_class nb (Z.of_nat (t + 1)) = true).
  { unfold valid_class. rewrite andb_true_iff, Z.leb_le, Z.ltb_lt. lia. }
  assert (Hf : flat_indices nb (Z.of_nat t :: ts) (Z.of_nat (nb + j) :: ps)
               = flat_indices nb (Z.of_nat (t + 1) :: ts) (Z.of_nat j :: ps)).
  { destruct ps as [|b ps]; unfold flat_indices, valid_pairs; simpl;
      rewrite Hv1, Hv2; simpl; f_equal; lia. }
  unfold cell_matrix, cell_count. rewrite Hf. reflexivity.
Qed.

Lemma compute_hist_aliases_large_pred_witness :
  compute_hist 3 [0; 2]%Z [4; 2]%Z = compute_hist 3 [1; 2]%Z [1; 2]%Z.
Proof.
  apply (compute_hist_aliases_large_pred 3 0 1 [2%Z] [2%Z]); lia.
Defined.

(** ** evaluate: range of the result, wrong predictions, order of the batch *)

Lemma nsum_ge_term_col (n : nat) (c : nat -> nat -> Z) (i : nat) :
  (forall a b, (0 <= c a b)%Z) -> i < n ->
  (c i i <= nsum n (fun k => c k i))%Z.
Proof.
  intros Hc Hi. apply (nsum_ge_term n (fun k => c k i) i); auto.
Qed.

(** Every entry of the Jaccard vector lies in [0, 1]. *)
Lemma jaccard_q_range (nb : nat) (c : nat -> nat -> Z) :
  (forall a b, (0 <= c a b)%Z) ->
  Forall (fun q => (0 <= q)%Q /\ (q <= 1)%Q) (jaccard_q nb c).
Proof.
  intros Hc. unfold jaccard_q. apply Forall_tab. intros i Hi.
  pose proof (denominator_pos nb c i Hc Hi) as Hd.
  assert (H1 : (c i i <= nsum nb (fun j => c i j))%Z)
    by (apply (nsum_ge_term nb (fun j => c i j) i); auto).
  pose proof (nsum_ge_term_col nb c i Hc Hi) as H2.
  pose proof (Hc i i) as H0.
  rewrite Zle_Qle in H0, H1, H2. change (inject_Z 0) with 0%Q in H0.
  pose proof eps_pos as He.
  split.
  - apply Qle_shift_div_l; [assumption|]. lra.
  - apply Qle_shift_div_r; [assumption|]. lra.
Qed.

Lemma fold_Qplus_lower_le (lo : Q) (l : list Q) :
  Forall (fun q => (lo <= q)%Q) l ->
  forall a, (a + lo * inject_Z (Z.of_nat (length l)) <= fold_left Qplus l a)%Q.
Proof.
  induction 1 as [|q l Hq _ IH]; intros a.
  - simpl. change (inject_Z 0) with 0%Q. lra.
  - simpl fold_left. simpl length. specialize (IH (a + q)%Q).
    rewrite inject_Z_succ. nra.
Qed.

Lemma qmean_range (lo hi : Q) (l : list Q) :
  l <> [] ->
  Forall (fun q => (lo <= q)%Q /\ (q <= hi)%Q) l ->
  (lo <= qsum l / inject_Z (Z.of_nat (length l)) <= hi)%Q.
Proof.
  intros Hne H. destruct (Forall_and_l _ _ _ H) as [Hlo Hhi].
  assert (Hn : (0 < inject_Z (Z.of_nat (length l)))%Q).
  { change 0%Q with (inject_Z 0). rewrite <- Zlt_Qlt.
    destruct l; [congruence | simpl; lia]. }
  split.
  - apply Qle_shift_div_l; [assumption|].
    pose proof (fold_Qplus_lower_le lo l Hlo 0%Q) as H'. unfold qsum. lra.
  - apply Qle_shift_div_r; [assumption|].
    pose proof (fold_Qplus_upper hi l Hhi 0%Q) as H'. unfold qsum. lra.
Qed.

(** [evaluate] on a batch that goes through. *)
Lemma evaluate_ok (self : IoU) :
  Forall (pair_ok (self_nb_classes self)) (batch_pairs self) ->
  evaluate self
  = Ok (fmean (map Fin (jaccard_q (self_nb_classes self)
                          (fun i j =>
                             rounded_cell (self_nb_classes self)
                                          (batch_pairs self) 0 i j)))).
Proof.
  intros Hok. unfold evaluate. rewrite (batch_hist_ok self Hok). simpl bind.
  rewrite jaccard_finite by (intros; apply rounded_cell_nonneg; lia).
  now rewrite filter_self_equal_Fin.
Qed.

Lemma evaluate_ok_inv (self : IoU) (v : fval) :
  evaluate self = Ok v ->
  Forall (pair_ok (self_nb_classes self)) (batch_pairs self).
Proof.
  unfold evaluate. destruct (batch_hist self) as [h | e] eqn:E; [|discriminate].
  intros _. exact (accumulate_ok_inv _ _ _ _ E).
Qed.

Lemma jaccard_q_nonempty (nb : nat) (c : nat -> nat -> Z) :
  0 < nb -> jaccard_q nb c <> [].
Proof.
  intros Hnb. unfold jaccard_q, tab. destruct nb; [lia | discriminate].
Qed.

(** X5: whatever [evaluate] returns is, for a positive number of classes,
    a number between 0 and 1; with no class at all the mean is taken over
    nothing and the result is NaN. *)
Theorem evaluate_range (self : IoU) (v : fval) :
  evaluate self = Ok v ->
  (0 < self_nb_classes self ->
   exists m, v = Fin m /\ (0 <= m)%Q /\ (m <= 1)%Q) /\
  (self_nb_classes self = 0 -> v = NaN).
Proof.
  intros H. pose proof (evaluate_ok_inv self v H) as Hok.
  rewrite (evaluate_ok self Hok) in H. injection H as <-.
  split.
  - intros Hnb.
    pose proof (jaccard_q_nonempty (self_nb_classes self)
                  (fun i j => rounded_cell (self_nb_classes self)
                                           (batch_pairs self) 0 i j) Hnb)
      as Hne.
    rewrite (fmean_Fin _ Hne). eexists. split; [reflexivity|].
    apply qmean_range; [assumption|].
    apply jaccard_q_range. intros. apply rounded_cell_nonneg. lia.
  - intros ->. reflexivity.
Qed.

Lemma evaluate_range_witness :
  exists m, Fin (10000000000 # 20000000002)%Q = Fin m /\
            (0 <= m)%Q /\ (m <= 1)%Q.
Proof.
  assert (H : evaluate self_background = Ok (Fin (10000000000 # 20000000002)%Q))
    by reflexivity.
  apply (proj1 (evaluate_range self_background _ H)). simpl. lia.
Defined.

Lemma batch_in_range_ok (self : IoU) :
  batch_in_range self ->
  Forall (pair_ok (self_nb_classes self)) (batch_pairs self).
Proof.
  intros H. apply Forall_forall. intros [t p] Hin.
  destruct (H t p Hin) as [Hlen Hp].
  split; [exact Hlen | now apply preds_in_range_flat].
Qed.

Lemma cell_count_diag_wrong (nb : nat) (t p : list Z) (i : nat) :
  i < nb -> preds_in_range nb t p ->
  (forall a b, In (a, b) (valid_pairs nb t p) -> a <> b) ->
  cell_count nb t p i i = 0%Z.
Proof.
  intros Hi Hp Hw. unfold cell_count.
  rewrite (proj1 (count_occ_not_In Z.eq_dec _ _)); [reflexivity|].
  intros Hin. unfold flat_indices in Hin. apply in_map_iff in Hin.
  destruct Hin as [[a b] [Hx Hin]]. simpl in Hx.
  unfold preds_in_range in Hp. rewrite Forall_forall in Hp.
  pose proof (Hp _ Hin) as Hb. simpl in Hb.
  destruct (flat_index_inj nb i i a b Hi Hb (eq_sym Hx)) as [-> ->].
  now apply (Hw _ _ Hin).
Qed.

Lemma qsum_zero (l : list Q) :
  Forall (fun q => (q == 0)%Q) l -> (qsum l == 0)%Q.
Proof.
  intros H. unfold qsum.
  assert (G : forall a, (fold_left Qplus l a == a)%Q).
  { induction H as [|q l Hq _ IH]; intros a; simpl; [reflexivity|].
    rewrite IH, Hq. ring. }
  apply G.
Qed.

(** X6: when every item goes through with predictions in range and no
    selected position is predicted right, the diagonal of the histogram is
    empty and [evaluate] returns 0.  This covers the empty batch and a
    batch whose true values are all out of range. *)
Theorem evaluate_never_right_is_zero (self : IoU) :
  0 < self_nb_classes self ->
  batch_in_range self ->
  never_right self ->
  exists m, evaluate self = Ok (Fin m) /\ (m == 0)%Q.
Proof.
  intros Hnb Hr Hw.
  set (nb := self_nb_classes self) in *.
  rewrite (evaluate_ok self (batch_in_range_ok self Hr)). fold nb.
  set (c := fun i j => rounded_cell nb (batch_pairs self) 0 i j).
  rewrite (fmean_Fin _ (jaccard_q_nonempty nb c Hnb)).
  eexists. split; [reflexivity|].
  assert (Hd : forall i, i < nb -> c i i = 0%Z).
  { intros i Hi. unfold c. apply rounded_cell_zero. intros t p Hin.
    apply (cell_count_diag_wrong nb t p i Hi);
      [apply (Hr t p Hin) | apply (Hw t p Hin)]. }
  assert (Hz : (qsum (jaccard_q nb c) == 0)%Q).
  { apply qsum_zero. unfold jaccard_q. apply Forall_tab. intros i Hi.
    rewrite (Hd i Hi). unfold Qdiv. change (inject_Z 0) with 0%Q.
    apply Qmult_0_l. }
  rewrite Hz. unfold Qdiv. apply Qmult_0_l.
Qed.

Lemma evaluate_never_right_is_zero_witness :
  exists m, evaluate (stored 2 [item_wrong]) = Ok (Fin m) /\ (m == 0)%Q.
Proof.
  apply evaluate_never_right_is_zero.
  - simpl. lia.
  - intros t p [E | []]. inversion E. split; [reflexivity|].
    unfold preds_in_range. simpl. repeat constructor; simpl; lia.
  - intros t p [E | []]. inversion E. simpl.
    intros a b [F | [F | []]]; inversion F; lia.
Defined.

Lemma batch_cell_app (nb : nat) (l l' : list (list Z * list Z)) (i j : nat) :
  batch_cell nb (l ++ l') i j
  = (batch_cell nb l i j + batch_cell nb l' i j)%Z.
Proof.
  induction l as [|tp l IH]; simpl; [reflexivity|]. rewrite IH. lia.
Qed.

Lemma batch_cell_perm (nb : nat) (l l' : list (list Z * list Z)) (i j : nat) :
  Permutation l l' -> batch_cell nb l i j = batch_cell nb l' i j.
Proof.
  induction 1 as [| x l l' _ IH | x y l | l l' l'' _ IH1 _ IH2]; simpl.
  - reflexivity.
  - now rewrite IH.
  - lia.
  - now rewrite IH1.
Qed.

Lemma valid_count_app (nb : nat) (l l' : list (list Z * list Z)) :
  valid_count nb (l ++ l') = valid_count nb l + valid_count nb l'.
Proof.
  induction l as [|tp l IH]; simpl; [reflexivity|]. rewrite IH. lia.
Qed.

Lemma valid_count_perm (nb : nat) (l l' : list (list Z * list Z)) :
  Permutation l l' -> valid_count nb l = valid_count nb l'.
Proof.
  induction 1 as [| x l l' _ IH | x y l | l l' l'' _ IH1 _ IH2]; simpl.
  - reflexivity.
  - now rewrite IH.
  - lia.
  - now rewrite IH1.
Qed.

(** A cell of the batch counts some of its valid positions. *)
Lemma batch_cell_le (nb : nat) (pairs : list (list Z * list Z)) (i j : nat) :
  (0 <= batch_cell nb pairs i j <= Z.of_nat (valid_count nb pairs))%Z.
Proof.
  induction pairs as [|[t p] pairs IH]; simpl; [lia|].
  pose proof (cell_count_le nb t p i j). lia.
Qed.

(** [evaluate] on a batch of at most 2^24 valid positions: the Jaccard
    vector of the exact counts. *)
Lemma evaluate_exact (self : IoU) :
  Forall (pair_ok (self_nb_classes self)) (batch_pairs self) ->
  (Z.of_nat (valid_count (self_nb_classes self) (batch_pairs self))
   <= 2 ^ 24)%Z ->
  evaluate self
  = Ok (fmean (map Fin (jaccard_q (self_nb_classes self)
                          (batch_cell (self_nb_classes self)
                                      (batch_pairs self))))).
Proof.
  intros Hok Hb. unfold evaluate. rewrite (batch_hist_exact self Hok Hb).
  simpl bind.
  rewrite jaccard_finite by (intros; apply batch_cell_nonneg).
  now rewrite filter_self_equal_Fin.
Qed.

Lemma jaccard_q_ext (nb : nat) (c c' : nat -> nat -> Z) :
  (forall i j, c i j = c' i j) -> jaccard_q nb c = jaccard_q nb c'.
Proof.
  intros H. unfold jaccard_q. apply tab_ext. intros i _.
  rewrite (nsum_ext nb (fun j => c i j) (fun j => c' i j))
    by (intros; apply H).
  rewrite (nsum_ext nb (fun k => c k i) (fun k => c' k i))
    by (intros; apply H).
  now rewrite H.
Qed.

(** X7: on a batch of at most 2^24 positions whose true value is a class
    index, the result of [evaluate] does not depend on the order of the
    items: two stored batches with the same class count whose zipped items
    are permutations of each other return the same value, and one returns
    exactly when the other does.  (Beyond 2^24 the sums of the histogram
    are rounded, and the rounding depends on the order.) *)
Theorem evaluate_batch_order (self self' : IoU) :
  self_nb_classes self = self_nb_classes self' ->
  Permutation (batch_pairs self) (batch_pairs self') ->
  (Z.of_nat (valid_count (self_nb_classes self) (batch_pairs self))
   <= 2 ^ 24)%Z ->
  forall v, evaluate self = Ok v <-> evaluate self' = Ok v.
Proof.
  assert (G : forall s s' : IoU,
             self_nb_classes s = self_nb_classes s' ->
             Permutation (batch_pairs s) (batch_pairs s') ->
             (Z.of_nat (valid_count (self_nb_classes s) (batch_pairs s))
              <= 2 ^ 24)%Z ->
             forall v, evaluate s = Ok v -> evaluate s' = Ok v).
  { intros s s' Hnb Hperm Hb v H.
    pose proof (evaluate_ok_inv s v H) as Hok.
    assert (Hok' : Forall (pair_ok (self_nb_classes s')) (batch_pairs s')).
    { rewrite <- Hnb. exact (Permutation_Forall Hperm Hok). }
    assert (Hb' : (Z.of_nat (valid_count (self_nb_classes s')
                                         (batch_pairs s')) <= 2 ^ 24)%Z).
    { rewrite <- Hnb.
      now rewrite <- (valid_count_perm _ _ _ Hperm). }
    rewrite (evaluate_exact s Hok Hb) in H.
    rewrite (evaluate_exact s' Hok' Hb').
    rewrite <- H, <- Hnb. f_equal. f_equal. f_equal.
    apply jaccard_q_ext. intros i j. symmetry. now apply batch_cell_perm. }
  intros Hnb Hperm Hb v. split.
  - now apply G.
  - apply G; [now symmetry | now apply Permutation_sym |].
    rewrite <- Hnb. now rewrite <- (valid_count_perm _ _ _ Hperm).
Qed.

Lemma evaluate_batch_order_witness :
  exists v, evaluate (stored 2 [item_wrong; item_mixed]) = Ok v /\
            evaluate (stored 2 [item_mixed; item_wrong]) = Ok v.
Proof.
  eexists. split; [reflexivity|].
  apply (evaluate_batch_order (stored 2 [item_wrong; item_mixed])
           (stored 2 [item_mixed; item_wrong])).
  - reflexivity.
  - apply perm_swap.
  - vm_compute. discriminate.
  - reflexivity.
Defined.

(** X8: on a batch of at most 2^24 positions whose true value is a class
    index, the accumulated histogram is the entry-wise sum of the
    histograms of its parts: when the zipped items of a batch are those of
    a first batch followed by those of a second, it has a histogram exactly
    when both parts have one, and it is their sum. *)
Theorem batch_hist_of_parts (self1 self2 self : IoU) :
  self_nb_classes self1 = self_nb_classes self ->
  self_nb_classes self2 = self_nb_classes self ->
  batch_pairs self = batch_pairs self1 ++ batch_pairs self2 ->
  (Z.of_nat (valid_count (self_nb_classes self) (batch_pairs self))
   <= 2 ^ 24)%Z ->
  forall h, batch_hist self = Ok h <->
            exists h1 h2, batch_hist self1 = Ok h1 /\
                          batch_hist self2 = Ok h2 /\
                          h = hist_add h1 h2.
Proof.
  intros Hnb1 Hnb2 Hp Hb h.
  set (nb := self_nb_classes self) in *.
  assert (Hv : valid_count nb (batch_pairs self)
               = valid_count nb (batch_pairs self1)
                 + valid_count nb (batch_pairs self2))
    by (rewrite Hp; apply valid_count_app).
  assert (Hb1 : (Z.of_nat (valid_count (self_nb_classes self1)
                                       (batch_pairs self1)) <= 2 ^ 24)%Z)
    by (rewrite Hnb1; lia).
  assert (Hb2 : (Z.of_nat (valid_count (self_nb_classes self2)
                                       (batch_pairs self2)) <= 2 ^ 24)%Z)
    by (rewrite Hnb2; lia).
  assert (Hsum : Forall (pair_ok nb) (batch_pairs self1) ->
                 Forall (pair_ok nb) (batch_pairs self2) ->
                 batch_hist self
                 = Ok (hist_add
                         (tab nb (fun i => tab nb (fun j =>
                            batch_cell nb (batch_pairs self1) i j)))
                         (tab nb (fun i => tab nb (fun j =>
                            batch_cell nb (batch_pairs self2) i j))))).
  { intros H1 H2. rewrite batch_hist_exact.
    - fold nb. rewrite Hp, hist_add_tab. f_equal.
      apply tab_ext. intros i _. apply tab_ext. intros j _.
      rewrite batch_cell_app. symmetry. apply float32_of_Z_exact.
      unfold exact_limit.
      pose proof (batch_cell_le nb (batch_pairs self1) i j).
      pose proof (batch_cell_le nb (batch_pairs self2) i j). lia.
    - fold nb. rewrite Hp. apply Forall_app. now split.
    - exact Hb. }
  split.
  - intros H.
    assert (Hok : Forall (pair_ok nb) (batch_pairs self))
      by exact (accumulate_ok_inv _ _ _ _ H).
    rewrite Hp in Hok. apply Forall_app in Hok. destruct Hok as [H1 H2].
    exists (tab nb (fun i => tab nb (fun j =>
              batch_cell nb (batch_pairs self1) i j))),
           (tab nb (fun i => tab nb (fun j =>
              batch_cell nb (batch_pairs self2) i j))).
    split; [|split].
    + rewrite batch_hist_exact; [now rewrite Hnb1 | now rewrite Hnb1 | exact Hb1].
    + rewrite batch_hist_exact; [now rewrite Hnb2 | now rewrite Hnb2 | exact Hb2].
    + rewrite (Hsum H1 H2) in H. now injection H as <-.
  - intros [h1 [h2 [E1 [E2 ->]]]].
    assert (H1 : Forall (pair_ok nb) (batch_pairs self1)).
    { rewrite <- Hnb1. exact (accumulate_ok_inv _ _ _ _ E1). }
    assert (H2 : Forall (pair_ok nb) (batch_pairs self2)).
    { rewrite <- Hnb2. exact (accumulate_ok_inv _ _ _ _ E2). }
    rewrite batch_hist_exact in E1
      by first [exact Hb1 | rewrite Hnb1; exact H1].
    rewrite batch_hist_exact in E2
      by first [exact Hb2 | rewrite Hnb2; exact H2].
    rewrite Hnb1 in E1. rewrite Hnb2 in E2.
    injection E1 as <-. injection E2 as <-.
    now apply Hsum.
Qed.

Lemma batch_hist_of_parts_witness :
  exists h1 h2,
    batch_hist (stored 2 [item_wrong]) = Ok h1 /\
    batch_hist (stored 2 [item_mixed]) = Ok h2 /\
    batch_hist (stored 2 [item_wrong; item_mixed]) = Ok (hist_add h1 h2).
Proof.
  eexists. eexists. split; [reflexivity|]. split; [reflexivity|].
  apply (batch_hist_of_parts (stored 2 [item_wrong]) (stored 2 [item_mixed])
           (stored 2 [item_wrong; item_mixed]));
    try reflexivity.
  - vm_compute. discriminate.
  - eexists. eexists. split; [reflexivity|]. split; reflexivity.
Defined.

(** ** evaluate: exchanging ground truth and prediction *)

Lemma combine_swap {A B : Type} (l : list A) (l' : list B) :
  combine l' l = map (fun ab => (snd ab, fst ab)) (combine l l').
Proof.
  revert l'. induction l as [|a l IH]; intros [|b l']; simpl;
    try reflexivity. now rewrite IH.
Qed.

Lemma confusions_swap (t p : list Z) (i j : nat) :
  confusions p t j i = confusions t p i j.
Proof.
  unfold confusions. rewrite (combine_swap t p).
  induction (combine t p) as [|[a b] l IH]; [reflexivity|].
  simpl. rewrite (andb_comm (b =? Z.of_nat j)%Z).
  destruct ((a =? Z.of_nat i)%Z && (b =? Z.of_nat j)%Z); simpl; now rewrite IH.
Qed.

Lemma valid_class_in_range (nb : nat) (z : Z) :
  (0 <= z < Z.of_nat nb)%Z -> valid_class nb z = true.
Proof.
  intros H. unfold valid_class. rewrite andb_true_iff, Z.leb_le, Z.ltb_lt. lia.
Qed.

Lemma cell_count_confusions (nb : nat) (t p : list Z) (i j : nat) :
  i < nb -> j < nb ->
  Forall (fun z => (0 <= z < Z.of_nat nb)%Z) p ->
  cell_count nb t p i j = Z.of_nat (confusions t p i j).
Proof.
  intros Hi Hj Hp. unfold cell_count, flat_indices, valid_pairs, confusions.
  f_equal. apply count_flat_is_confusions; [assumption | assumption |].
  apply Forall_forall. intros [a b] Hin _. simpl.
  rewrite Forall_forall in Hp. apply Hp. exact (in_combine_r _ _ _ _ Hin).
Qed.

Lemma all_in_range_preds (nb : nat) (t p : list Z) :
  Forall (fun z => (0 <= z < Z.of_nat nb)%Z) p -> preds_in_range nb t p.
Proof.
  intros Hp. unfold preds_in_range, valid_pairs.
  apply Forall_forall. intros [a b] Hin. simpl.
  apply filter_In in Hin. destruct Hin as [Hin _].
  rewrite Forall_forall in Hp. apply Hp. exact (in_combine_r _ _ _ _ Hin).
Qed.

Lemma rounded_cell_swap (nb : nat) (l l' : list (list Z)) (i j : nat) :
  i < nb -> j < nb ->
  (forall t p, In (t, p) (combine l l') ->
     Forall (fun z => (0 <= z < Z.of_nat nb)%Z) t /\
     Forall (fun z => (0 <= z < Z.of_nat nb)%Z) p) ->
  forall z,
    rounded_cell nb (combine l' l) z j i = rounded_cell nb (combine l l') z i j.
Proof.
  intros Hi Hj. revert l'.
  induction l as [|t l IH]; intros [|p l'] H z; simpl; try reflexivity.
  destruct (H t p (or_introl eq_refl)) as [Ht Hp].
  rewrite (cell_count_confusions nb p t j i Hj Hi Ht).
  rewrite (cell_count_confusions nb t p i j Hi Hj Hp).
  rewrite confusions_swap. apply IH.
  intros t' p' Hin. apply H. now right.
Qed.

Lemma Forall2_tab {A B : Type} (R : A -> B -> Prop) (n : nat)
    (f : nat -> A) (g : nat -> B) :
  (forall i, i < n -> R (f i) (g i)) -> Forall2 R (tab n f) (tab n g).
Proof.
  intros H. unfold tab.
  assert (G : forall l, (forall i, In i l -> R (f i) (g i)) ->
                        Forall2 R (map f l) (map g l)).
  { induction l as [|x l IH]; intros Hl; simpl; constructor.
    - apply Hl. now left.
    - apply IH. intros i Hi. apply Hl. now right. }
  apply G. intros i Hi. apply in_seq in Hi. apply H. lia.
Qed.

Lemma qsum_Forall2 (l l' : list Q) :
  Forall2 Qeq l l' -> (qsum l == qsum l')%Q.
Proof.
  intros H. unfold qsum.
  assert (G : forall a a', (a == a')%Q ->
                           (fold_left Qplus l a == fold_left Qplus l' a')%Q).
  { induction H as [|q q' l l' Hq _ IH]; intros a a' Ha; simpl;
      [assumption|].
    apply IH. now rewrite Ha, Hq. }
  apply G. reflexivity.
Qed.

(** X9: the Mean IoU is symmetric.  When every value of both stored maps is
    a class index, exchanging ground truth and prediction transposes the
    histogram and [evaluate] returns the same number. *)
Theorem evaluate_symmetric (self : IoU) :
  0 < self_nb_classes self ->
  all_class_indices self ->
  exists m m',
    evaluate self = Ok (Fin m) /\
    evaluate (swapped self) = Ok (Fin m') /\
    (m == m')%Q.
Proof.
  intros Hnb Hall.
  set (nb := self_nb_classes self) in *.
  set (lt := titems (self_true self)).
  set (lp := titems (self_pred self)).
  assert (Hok : Forall (pair_ok nb) (batch_pairs self)).
  { apply Forall_forall. intros [t p] Hin.
    destruct (Hall t p Hin) as [Hlen [_ Hp]].
    split; [exact Hlen|]. apply preds_in_range_flat.
    now apply all_in_range_preds. }
  assert (Hok' : Forall (pair_ok nb) (batch_pairs (swapped self))).
  { apply Forall_forall. intros [p t] Hin.
    unfold batch_pairs, swapped in Hin. simpl in Hin.
    rewrite combine_swap in Hin. apply in_map_iff in Hin.
    destruct Hin as [[t' p'] [E Hin]]. simpl in E. inversion E; subst.
    destruct (Hall t p Hin) as [Hlen [Ht _]].
    split; [simpl; lia|]. apply preds_in_range_flat.
    now apply all_in_range_preds. }
  rewrite (evaluate_ok self Hok).
  rewrite (evaluate_ok (swapped self) Hok').
  change (self_nb_classes (swapped self)) with nb. fold nb.
  change (batch_pairs (swapped self)) with (combine lp lt).
  change (batch_pairs self) with (combine lt lp).
  set (c := fun i j => rounded_cell nb (combine lt lp) 0 i j).
  set (c' := fun i j => rounded_cell nb (combine lp lt) 0 i j).
  rewrite (fmean_Fin _ (jaccard_q_nonempty nb c Hnb)).
  rewrite (fmean_Fin _ (jaccard_q_nonempty nb c' Hnb)).
  eexists. eexists. split; [reflexivity|]. split; [reflexivity|].
  assert (Hc : forall i j, i < nb -> j < nb -> c' j i = c i j).
  { intros i j Hi Hj. unfold c, c'. apply rounded_cell_swap; try assumption.
    intros t p Hin. destruct (Hall t p Hin) as [_ [Ht Hp]]. now split. }
  assert (HF : Forall2 Qeq (jaccard_q nb c) (jaccard_q nb c')).
  { unfold jaccard_q. apply Forall2_tab. intros i Hi.
    rewrite (nsum_ext nb (fun j => c' i j) (fun j => c j i))
      by (intros j Hj; now apply Hc).
    rewrite (nsum_ext nb (fun k => c' k i) (fun k => c i k))
      by (intros j Hj; now apply Hc).
    rewrite (Hc i i Hi Hi).
    apply Qmult_comp; [reflexivity|]. apply Qinv_comp. ring. }
  rewrite (qsum_Forall2 _ _ HF).
  unfold jaccard_q. rewrite !length_tab. reflexivity.
Qed.

Lemma evaluate_symmetric_witness :
  exists m m',
    evaluate (stored 2 [item_mixed]) = Ok (Fin m) /\
    evaluate (swapped (stored 2 [item_mixed])) = Ok (Fin m') /\
    (m == m')%Q.
Proof.
  apply evaluate_symmetric.
  - simpl. lia.
  - intros t p [E | []]. inversion E. simpl.
    split; [reflexivity|]. split; repeat constructor; lia.
Defined.

(** ** squeeze_channels_: what the loop over the channels computes *)

(** X10: on a label of shape (h, w, c), [squeeze_channels_] returns an array
    of shape (1, h, w) whose entry at [(0, i, j)] is the sum over the
    channels [k] of [ilabel[i, j, k] * k], added up in the order of the
    channels. *)
Theorem squeeze_channels__weighted_sum (h w c : nat) (ilabel : image) :
  wf_rows h w ilabel ->
  exists m,
    squeeze_channels_ h w c ilabel = [m] /\
    length m = h /\
    Forall (fun row => length row = w) m /\
    forall i j, i < h -> j < w ->
      get2 m i j = weighted_sum c (fun k => get3 ilabel i j k).
Proof.
  intros Hx. exists (index_map h w c ilabel).
  split; [apply squeeze_channels__plane|].
  rewrite (index_map_pointwise h w c ilabel Hx).
  split; [apply length_tab|]. split.
  - apply Forall_tab. intros i _. apply length_tab.
  - intros i j Hi Hj. unfold get2.
    rewrite (nth_tab h _ i) by assumption.
    now rewrite (nth_tab w _ j) by assumption.
Qed.

Lemma squeeze_channels__weighted_sum_witness :
  exists m,
    squeeze_channels_ 1 2 3 (one_hot_label 3 classes_20) = [m] /\
    length m = 1 /\
    Forall (fun row => length row = 2) m /\
    forall i j, i < 1 -> j < 2 ->
      get2 m i j
      = weighted_sum 3 (fun k => get3 (one_hot_label 3 classes_20) i j k).
Proof.
  apply squeeze_channels__weighted_sum.
  split; [reflexivity|]. repeat constructor.
Defined.

Lemma weighted_sum_S (c : nat) (f : nat -> Q) :
  weighted_sum (S c) f
  = (weighted_sum c f + f c * inject_Z (Z.of_nat c))%Q.
Proof.
  unfold weighted_sum. now rewrite seq_S, fold_left_app.
Qed.

Lemma weighted_sum_one_hot (c k : nat) (f : nat -> Q) :
  (forall k', k' < c -> f k' = if k' =? k then 1%Q else 0%Q) ->
  (weighted_sum c f == if k <? c then inject_Z (Z.of_nat k) else 0)%Q.
Proof.
  induction c as [|c IH]; intros Hf; [reflexivity|].
  rewrite weighted_sum_S, IH by (intros; apply Hf; lia).
  rewrite (Hf c) by lia.
  destruct (Nat.eqb_spec c k) as [-> | Hne].
  - replace (k <? k) with false by (symmetry; apply Nat.ltb_ge; lia).
    replace (k <? S k) with true by (symmetry; apply Nat.ltb_lt; lia).
    ring.
  - destruct (Nat.ltb_spec k c) as [Hlt | Hge].
    + replace (k <? S c) with true by (symmetry; apply Nat.ltb_lt; lia).
      ring.
    + replace (k <? S c) with false by (symmetry; apply Nat.ltb_ge; lia).
      ring.
Qed.

Lemma get3_one_hot_label (c : nat) (classes : list (list nat)) (i j k : nat) :
  i < length classes -> j < length (nth i classes []) -> k < c ->
  get3 (one_hot_label c classes) i j k
  = if k =? nth j (nth i classes []) 0 then 1%Q else 0%Q.
Proof.
  intros Hi Hj Hk. unfold get3, one_hot_label.
  rewrite (nth_indep _ [] (map (one_hot c) [])) by (rewrite length_map; lia).
  rewrite map_nth.
  rewrite (nth_indep _ [] (one_hot c 0)) by (rewrite length_map; lia).
  rewrite map_nth. unfold one_hot. now rewrite nth_tab.
Qed.

(** X11: [squeeze_channels_] decodes a one-hot label: on the one-hot
    encoding, over [c] channels, of an h x w map of classes below [c], its
    entry at [(0, i, j)] is the class of position [(i, j)]. *)
Theorem squeeze_channels__decodes_one_hot (h w c : nat)
    (classes : list (list nat)) :
  length classes = h ->
  Forall (fun row => length row = w /\ Forall (fun k => k < c) row) classes ->
  exists m,
    squeeze_channels_ h w c (one_hot_label c classes) = [m] /\
    forall i j, i < h -> j < w ->
      (get2 m i j == inject_Z (Z.of_nat (nth j (nth i classes []) 0%nat)))%Q.
Proof.
  intros Hh Hrows. exists (index_map h w c (one_hot_label c classes)).
  split; [apply squeeze_channels__plane|].
  assert (Hwf : wf_rows h w (one_hot_label c classes)).
  { unfold one_hot_label. split; [now rewrite length_map|].
    apply Forall_map. eapply Forall_impl; [|exact Hrows].
    simpl. intros row [Hl _]. now rewrite length_map. }
  rewrite (index_map_pointwise h w c _ Hwf).
  intros i j Hi Hj. unfold get2.
  rewrite (nth_tab h _ i) by assumption.
  rewrite (nth_tab w _ j) by assumption.
  assert (Hrow : length (nth i classes []) = w /\
                 Forall (fun k => k < c) (nth i classes [])).
  { rewrite Forall_forall in Hrows. apply Hrows. apply nth_In. lia. }
  destruct Hrow as [Hl Hc].
  assert (Hk : nth j (nth i classes []) 0 < c).
  { rewrite Forall_forall in Hc. apply Hc. apply nth_In. lia. }
  rewrite (weighted_sum_one_hot c (nth j (nth i classes []) 0)).
  - apply Nat.ltb_lt in Hk. now rewrite Hk.
  - intros k' Hk'. apply get3_one_hot_label; lia.
Qed.

Lemma squeeze_channels__decodes_one_hot_witness :
  exists m,
    squeeze_channels_ 1 2 3 (one_hot_label 3 classes_20) = [m] /\
    forall i j, i < 1 -> j < 2 ->
      (get2 m i j == inject_Z (Z.of_nat (nth j (nth i classes_20 []) 0%nat)))%Q.
Proof.
  apply squeeze_channels__decodes_one_hot; [reflexivity|].
  repeat constructor.
Defined.

(** ** IoU.__init__ and evaluate together *)


(** A batch that goes through with predictions in range scores a number
    between 0 and 1. *)
Lemma evaluate_in_range_number (self : IoU) :
  0 < self_nb_classes self ->
  batch_in_range self ->
  exists m, evaluate self = Ok (Fin m) /\ (0 <= m)%Q /\ (m <= 1)%Q.
Proof.
  intros Hnb Hr.
  rewrite (evaluate_ok self (batch_in_range_ok self Hr)).
  rewrite (fmean_Fin _ (jaccard_q_nonempty _ _ Hnb)).
  eexists. split; [reflexivity|].
  apply qmean_range; [now apply jaccard_q_nonempty|].
  apply jaccard_q_range. intros. apply rounded_cell_nonneg. lia.
Qed.

Lemma to_long_thresh_binary (thresh v : Q) :
  to_long (thresh_binary thresh 1%Q v)
  = if above thresh v then 1%Z else 0%Z.
Proof. unfold thresh_binary. destruct (above thresh v); reflexivity. Qed.

(** The entries of one thresholded single-channel item, flattened. *)
Lemma flatten3_threshold_single (thresh : Q) (h w : nat) (x : image) :
  flatten3 (threshold_image thresh 1 h w x)
  = concat (tab h (fun i => tab w (fun j =>
      thresh_binary thresh 1%Q (get3 x 0 i j)))).
Proof.
  unfold flatten3, threshold_image. rewrite map_tab. f_equal.
  apply tab_ext. intros i _. unfold tab. cbn [map seq].
  apply (concat_map_singleton
           (fun j => thresh_binary thresh 1%Q (get3 x 0 i j))).
Qed.

Lemma IoU_init_single_channel_result
    (softmax sigmoid : ndarray4 -> ndarray4) (true_ : ndarray)
    (pred : ndarray4) (activation : bool) (thresh : Q) (n h w : nat) :
  shape pred = (n, 1, h, w) ->
  0 < h -> 0 < w ->
  (forall a, shape (sigmoid a) = shape a /\
             length (data (sigmoid a)) = length (data a)) ->
  let scores := if activation then sigmoid pred else pred in
  IoU_init softmax sigmoid true_ pred activation thresh
  = Ok {| self_thresh := thresh;
          self_nb_classes := 2;
          self_pred :=
            {| tshape := [n; h; w; 1];
               titems := map (fun x => map to_long
                                 (flatten3 (threshold_image thresh 1 h w x)))
                             (data scores) |};
          self_true := long true_ |}.
Proof.
  intros Hs Hh Hw Hsg scores.
  assert (Hss : shape scores = (n, 1, h, w)).
  { unfold scores. destruct activation; [|assumption].
    rewrite (proj1 (Hsg pred)). assumption. }
  unfold IoU_init. rewrite Hs.
  change (1 <? 1) with false. change (1 =? 1) with true. cbv iota.
  fold scores.
  rewrite (threshold_spec scores thresh n 1 h w Hss Nat.lt_0_1 Hh Hw).
  simpl bind. unfold long, of_ndarray4. simpl.
  now rewrite !map_map.
Qed.



Lemma long_items_size (k : nat) (x : ndarray) :
  items_of_size k x ->
  Forall (fun item => length item = k) (titems (long x)).
Proof.
  intros H. unfold long. simpl. apply Forall_map.
  eapply Forall_impl; [|exact H]. simpl. intros item Hl.
  now rewrite length_map.
Qed.

Lemma in_combine_Forall {A B : Type} (P : A -> Prop) (Q : B -> Prop)
    (l : list A) (l' : list B) (a : A) (b : B) :
  Forall P l -> Forall Q l' -> In (a, b) (combine l l') -> P a /\ Q b.
Proof.
  intros Hl Hl' Hin. rewrite Forall_forall in Hl, Hl'. split.
  - apply Hl. exact (in_combine_l _ _ _ _ Hin).
  - apply Hl'. exact (in_combine_r _ _ _ _ Hin).
Qed.

Lemma single_channel_item (thresh : Q) (h w : nat) (x : image) :
  let item := map to_long (flatten3 (threshold_image thresh 1 h w x)) in
  length item = h * w /\ Forall (fun z => (0 <= z < 2)%Z) item.
Proof.
  intros item. unfold item. rewrite flatten3_threshold_single. split.
  - rewrite length_map. apply length_concat_uniform; [apply length_tab|].
    apply Forall_tab. intros. apply length_tab.
  - apply Forall_map, Forall_concat, Forall_tab. intros i _.
    apply Forall_tab. intros j _.
    rewrite to_long_thresh_binary. destruct (above _ _); lia.
Qed.

(** X13: for scores of one channel whose images have at least one position
    and a ground truth with one entry per position of each image,
    construction followed by [evaluate] does not raise, whatever the values
    of the ground truth: it returns a number between 0 and 1. *)
Theorem single_channel_evaluate_returns
    (softmax sigmoid : ndarray4 -> ndarray4) (true_ : ndarray)
    (pred : ndarray4) (activation : bool) (thresh : Q) (n h w : nat) :
  shape pred = (n, 1, h, w) ->
  0 < h -> 0 < w ->
  (forall a, shape (sigmoid a) = shape a /\
             length (data (sigmoid a)) = length (data a)) ->
  items_of_size (h * w) true_ ->
  exists st m,
    IoU_init softmax sigmoid true_ pred activation thresh = Ok st /\
    evaluate st = Ok (Fin m) /\ (0 <= m)%Q /\ (m <= 1)%Q.
Proof.
  intros Hs Hh Hw Hsg Ht. eexists.
  rewrite (IoU_init_single_channel_result softmax sigmoid true_ pred
             activation thresh n h w Hs Hh Hw Hsg).
  match goal with
  | |- exists m, Ok ?s = _ /\ _ => 
      destruct (evaluate_in_range_number s) as [m Hm]
  end.
  - simpl. lia.
  - intros t p Hin. unfold batch_pairs in Hin. simpl self_true in Hin.
    simpl self_pred in Hin. simpl titems at 2 in Hin.
    assert (HFp : Forall (fun item => length item = h * w /\
                                      Forall (fun z => (0 <= z < 2)%Z) item)
                         (map (fun x => map to_long
                                 (flatten3 (threshold_image thresh 1 h w x)))
                              (data (if activation then sigmoid pred
                                     else pred)))).
    { apply Forall_map, Forall_forall. intros x _.
      apply single_channel_item. }
    destruct (in_combine_Forall _ _ _ _ t p (long_items_size _ _ Ht) HFp Hin)
      as [Hlt [Hlp Hp]].
    split; [lia|]. now apply all_in_range_preds.
  - exists m. split; [reflexivity | exact Hm].
Qed.

Lemma single_channel_evaluate_returns_witness :
  exists st m,
    IoU_init no_activation no_activation true_single pred_single false
             (1 # 2)%Q = Ok st /\
    evaluate st = Ok (Fin m) /\ (0 <= m)%Q /\ (m <= 1)%Q.
Proof.
  apply (single_channel_evaluate_returns no_activation no_activation
           true_single pred_single false (1 # 2)%Q 1 1 2).
  - reflexivity.
  - lia.
  - lia.
  - intros a. split; reflexivity.
  - repeat constructor.
Defined.

Lemma IoU_init_multi_channel_result
    (softmax sigmoid : ndarray4 -> ndarray4) (true_ : ndarray)
    (pred : ndarray4) (activation : bool) (thresh : Q)
    (n c h w : nat) (rest : list nat) :
  shape pred = (n, c, h, w) ->
  length (data pred) = n ->
  1 < c ->
  0 < n ->
  0 < h -> 0 < w ->
  nshape true_ = n :: rest ->
  length (nitems true_) = n ->
  (forall a, shape (softmax a) = shape a /\
             length (data (softmax a)) = length (data a)) ->
  let scores := if activation then softmax pred else pred in
  IoU_init softmax sigmoid true_ pred activation thresh
  = Ok {| self_thresh := thresh;
          self_nb_classes := c;
          self_pred :=
            {| tshape := [n; h; w];
               titems :=
                 map (fun x => map to_long
                        (concat (clipped_index_map h w c
                                   (threshold_image thresh c h w x))))
                     (data scores) |};
          self_true := long true_ |}.
Proof.
  intros Hs Hn Hc Hpos Hh Hw Hts Htn Hsm scores.
  assert (Hss : shape scores = (n, c, h, w)).
  { unfold scores. destruct activation; [|assumption].
    rewrite (proj1 (Hsm pred)). assumption. }
  assert (Hsn : length (data scores) = n).
  { unfold scores. destruct activation; [|assumption].
    rewrite (proj2 (Hsm pred)). assumption. }
  assert (Hc0 : 0 < c) by lia.
  pose proof (threshold_spec scores thresh n c h w Hss Hc0 Hh Hw) as Hth.
  set (y := {| shape := (n, h, w, c);
               data := map (threshold_image thresh c h w) (data scores) |})
    in Hth.
  assert (Hyn : length (data y) = n) by (simpl; now rewrite length_map).
  assert (Hsq : squeeze_channels (nitems true_) y true
                = Ok (nitems true_,
                      Squeezed {| shape3 := (length (data y), h, w);
                                  data3 := map (clipped_index_map h w c)
                                               (data y) |})).
  { apply (squeeze_channels_clip_full (nitems true_) y n h w c).
    - reflexivity.
    - lia.
    - lia.
    - intros E. rewrite E in Hyn. simpl in Hyn. lia. }
  unfold IoU_init. rewrite Hs.
  assert (Hc1 : (1 <? c) = true) by (apply Nat.ltb_lt; lia).
  assert (Hc2 : (c =? 1) = false) by (apply Nat.eqb_neq; lia).
  rewrite Hc1, Hc2. fold scores. rewrite Hth. simpl bind.
  rewrite Hc1, Hsq. simpl bind. simpl fst. simpl snd.
  rewrite Htn, Hts. simpl tl.
  unfold long at 1, of_labels_out, of_ndarray3. simpl.
  rewrite !length_map, Hsn, !map_map.
  destruct true_ as [ts ti]. simpl in Hts. subst ts. reflexivity.
Qed.














(** X16: for scores of several channels, a non-empty batch of images with
    at least one position and a ground truth with one entry per position
    of each image (an index map), construction followed by [evaluate] does
    not raise, whatever the values of the ground truth: it returns a number
    between 0 and 1. *)
Theorem multi_channel_evaluate_returns
    (softmax sigmoid : ndarray4 -> ndarray4) (true_ : ndarray)
    (pred : ndarray4) (activation : bool) (thresh : Q)
    (n c h w : nat) (rest : list nat) :
  shape pred = (n, c, h, w) ->
  length (data pred) = n ->
  1 < c ->
  0 < n ->
  0 < h -> 0 < w ->
  nshape true_ = n :: rest ->
  length (nitems true_) = n ->
  (forall a, shape (softmax a) = shape a /\
             length (data (softmax a)) = length (data a)) ->
  items_of_size (h * w) true_ ->
  exists st m,
    IoU_init softmax sigmoid true_ pred activation thresh = Ok st /\
    evaluate st = Ok (Fin m) /\ (0 <= m)%Q /\ (m <= 1)%Q.
Proof.
  intros Hs Hn Hc Hpos Hh Hw Hts Htn Hsm Ht. eexists.
  rewrite (IoU_init_multi_channel_result softmax sigmoid true_ pred
             activation thresh n c h w rest Hs Hn Hc Hpos Hh Hw Hts Htn Hsm).
  match goal with
  | |- exists m, Ok ?s = _ /\ _ =>
      destruct (evaluate_in_range_number s) as [m Hm]
  end.
  - simpl. lia.
  - intros t p Hin. unfold batch_pairs in Hin. simpl self_true in Hin.
    simpl self_pred in Hin. simpl titems at 2 in Hin.
    assert (HFp : Forall (fun item => length item = h * w /\
                            Forall (fun z => (0 <= z < Z.of_nat c)%Z) item)
                         (map (fun x => map to_long
                                 (concat (clipped_index_map h w c
                                            (threshold_image thresh c h w x))))
                              (data (if activation then softmax pred
                                     else pred)))).
    { apply Forall_map, Forall_forall. intros x _.
      apply (stored_pred_item thresh c h w x). lia. }
    destruct (in_combine_Forall _ _ _ _ t p (long_items_size _ _ Ht) HFp Hin)
      as [Hlt [Hlp Hp]].
    split; [lia|]. now apply all_in_range_preds.
  - exists m. split; [reflexivity | exact Hm].
Qed.

Lemma multi_channel_evaluate_returns_witness :
  exists st m,
    IoU_init no_activation no_activation true_three pred_three false
             (1 # 2)%Q = Ok st /\
    evaluate st = Ok (Fin m) /\ (0 <= m)%Q /\ (m <= 1)%Q.
Proof.
  apply (multi_channel_evaluate_returns no_activation no_activation
           true_three pred_three false (1 # 2)%Q 1 3 1 2 [1; 2]);
    try reflexivity; try lia.
  - intros a. split; reflexivity.
  - repeat constructor.
Defined.

(** X17: a ground truth of the shape (n, c, h, w) of multi-channel scores
    is not squeezed, so its items have [c * h * w] entries against the
    [h * w] of the stored prediction: construction succeeds and [evaluate]
    raises IndexError on the first pair. *)
Theorem same_shape_truth_evaluate_raises
    (softmax sigmoid : ndarray4 -> ndarray4) (true_ : ndarray)
    (pred : ndarray4) (activation : bool) (thresh : Q)
    (n c h w : nat) (rest : list nat) :
  shape pred = (n, c, h, w) ->
  length (data pred) = n ->
  1 < c ->
  0 < n ->
  0 < h * w ->
  nshape true_ = n :: rest ->
  length (nitems true_) = n ->
  (forall a, shape (softmax a) = shape a /\
             length (data (softmax a)) = length (data a)) ->
  items_of_size (c * h * w) true_ ->
  exists st,
    IoU_init softmax sigmoid true_ pred activation thresh = Ok st /\
    evaluate st = Err IndexError.
Proof.
  intros Hs Hn Hc Hpos Hhw Hts Htn Hsm Ht.
  assert (Hh : 0 < h) by nia. assert (Hw : 0 < w) by nia.
  eexists.
  split;
    [apply (IoU_init_multi_channel_result softmax sigmoid true_ pred
              activation thresh n c h w rest Hs Hn Hc Hpos Hh Hw Hts Htn Hsm)|].
  assert (Hsn : length (data (if activation then softmax pred else pred)) = n).
  { destruct activation; [|assumption].
    rewrite (proj2 (Hsm pred)). assumption. }
  unfold evaluate, batch_hist. simpl self_nb_classes. simpl self_true.
  simpl self_pred. simpl titems.
  destruct (nitems true_) as [|t0 ts] eqn:Et; [simpl in Htn; lia|].
  destruct (data (if activation then softmax pred else pred)) as [|x0 xs];
    [simpl in Hsn; lia|].
  simpl combine. simpl accumulate.
  rewrite compute_hist_decide.
  assert (Hl0 : length t0 = c * h * w).
  { unfold items_of_size in Ht. rewrite Et in Ht. now inversion Ht. }
  destruct (stored_pred_item thresh c h w x0) as [Hlp _]; [lia|].
  rewrite length_map, Hl0, Hlp.
  replace (c * h * w =? h * w) with false; [reflexivity|].
  symmetry. apply Nat.eqb_neq. nia.
Qed.

Lemma same_shape_truth_evaluate_raises_witness :
  exists st,
    IoU_init no_activation no_activation true_three_onehot pred_three false
             (1 # 2)%Q = Ok st /\
    evaluate st = Err IndexError.
Proof.
  apply (same_shape_truth_evaluate_raises no_activation no_activation
           true_three_onehot pred_three false (1 # 2)%Q 1 3 1 2 [3; 1; 2]);
    try reflexivity; try lia.
  - intros a. split; reflexivity.
  - repeat constructor.
Defined.

(** X18: on an empty batch of scores of several channels [IoU.__init__]
    raises: nothing reaches the concatenation of [squeeze_channels]. *)
Theorem IoU_init_empty_multi_channel_raises
    (softmax sigmoid : ndarray4 -> ndarray4) (true_ : ndarray)
    (pred : ndarray4) (activation : bool) (thresh : Q) (c h w : nat) :
  shape pred = (0, c, h, w) ->
  data pred = [] ->
  1 < c ->
  (forall a, shape (softmax a) = shape a /\
             length (data (softmax a)) = length (data a)) ->
  IoU_init softmax sigmoid true_ pred activation thresh = Err ValueError.
Proof.
  intros Hs Hd Hc Hsm.
  set (scores := if activation then softmax pred else pred).
  assert (Hss : shape scores = (0, c, h, w)).
  { unfold scores. destruct activation; [|assumption].
    rewrite (proj1 (Hsm pred)). assumption. }
  assert (Hsd : data scores = []).
  { unfold scores. destruct activation; [|assumption].
    apply length_zero_iff_nil. rewrite (proj2 (Hsm pred)), Hd. reflexivity. }
  unfold IoU_init. rewrite Hs.
  assert (Hc1 : (1 <? c) = true) by (apply Nat.ltb_lt; lia).
  assert (Hc2 : (c =? 1) = false) by (apply Nat.eqb_neq; lia).
  rewrite Hc1, Hc2. fold scores.
  rewrite (threshold_spec_empty scores thresh 0 c h w Hss Hsd). simpl bind.
  rewrite Hc1.
  rewrite (squeeze_channels_clip_spec (nitems true_)
             {| shape := (0, h, w, c); data := [] |} 0 h w c eq_refl)
    by lia.
  reflexivity.
Qed.

Lemma IoU_init_empty_multi_channel_raises_witness :
  IoU_init no_activation no_activation true_empty pred_empty false (1 # 2)%Q
  = Err ValueError.
Proof.
  apply (IoU_init_empty_multi_channel_raises no_activation no_activation
           true_empty pred_empty false (1 # 2)%Q 3 1 2);
    try reflexivity; try lia.
  intros a. split; reflexivity.
Defined.

(** X19: whenever [squeeze_channels] returns on a multi-channel input, in
    either mode, the two arrays it returns have one batch size, which is
    at least 1 and at most the size of either input, and the index maps
    carry the shape (size, h, w). *)
Theorem squeeze_channels_result_sizes {I : Type} (images : list I)
    (labels : ndarray4) (clip : bool) (n h w c : nat)
    (imgs : list I) (out : labels_out) :
  shape labels = (n, h, w, c) ->
  c <> 1 ->
  squeeze_channels images labels clip = Ok (imgs, out) ->
  exists a,
    out = Squeezed a /\
    shape3 a = (length imgs, h, w) /\
    length (data3 a) = length imgs /\
    0 < length imgs /\
    length imgs <= length images /\
    length imgs <= length (data labels).
Proof.
  intros Hs Hc H. destruct clip.
  - rewrite (squeeze_channels_clip_spec images labels n h w c Hs Hc) in H.
    cbv zeta in H.
    destruct (combine (data labels) images) as [|p pairs] eqn:E;
      [discriminate|].
    rewrite <- E in H. injection H as <- <-.
    eexists. split; [reflexivity|]. simpl.
    rewrite !length_map, length_combine.
    assert (0 < length (combine (data labels) images))
      by (rewrite E; simpl; lia).
    rewrite length_combine in *.
    split; [reflexivity|]. split; [reflexivity|]. lia.
  - rewrite (squeeze_channels_noclip_spec images labels n h w c Hs Hc) in H.
    cbv zeta in H.
    pose proof (filter_length_le
                  (fun p : image * I =>
                     all_classes_present c (squeeze_channels_ h w c (fst p)))
                  (combine (data labels) images)) as Hle.
    fold (kept_pairs h w c (combine (data labels) images)) in Hle.
    destruct (kept_pairs h w c (combine (data labels) images))
      as [|p kept] eqn:E; [discriminate|].
    rewrite <- E in H. injection H as <- <-.
    eexists. split; [reflexivity|]. simpl.
    rewrite !length_map. rewrite E. rewrite length_combine in Hle.
    simpl in *.
    split; [reflexivity|]. split; [reflexivity|]. lia.
Qed.

Lemma squeeze_channels_result_sizes_witness :
  exists a,
    Squeezed {| shape3 := (2, 1, 2);
                data3 := [[[0%Q; 1%Q]]; [[1%Q; 0%Q]]] |} = Squeezed a /\
    shape3 a = (length [10; 30], 1, 2) /\
    length (data3 a) = length [10; 30] /\
    0 < length [10; 30] /\
    length [10; 30] <= length [10; 20; 30] /\
    length [10; 30] <= length (data labels7).
Proof.
  apply (squeeze_channels_result_sizes [10; 20; 30] labels7 false 3 1 2 2).
  - reflexivity.
  - lia.
  - reflexivity.
Defined.

(** ** squeeze_channels on one-hot labels *)

Lemma one_hot_label_rows (h w c : nat) (classes : list (list nat)) :
  class_map h w c classes -> wf_rows h w (one_hot_label c classes).
Proof.
  intros [Hh Hrows]. unfold one_hot_label. split; [now rewrite length_map|].
  apply Forall_map. eapply Forall_impl; [|exact Hrows].
  simpl. intros row [Hl _]. now rewrite length_map.
Qed.

Lemma class_at_lt (h w c : nat) (classes : list (list nat)) (i j : nat) :
  class_map h w c classes -> i < h -> j < w ->
  length (nth i classes []) = w /\ class_at classes i j < c.
Proof.
  intros [Hh Hrows] Hi Hj.
  assert (Hrow : length (nth i classes []) = w /\
                 Forall (fun k => k < c) (nth i classes [])).
  { rewrite Forall_forall in Hrows. apply Hrows. apply nth_In. lia. }
  destruct Hrow as [Hl Hc]. split; [assumption|].
  rewrite Forall_forall in Hc. apply Hc. apply nth_In. lia.
Qed.

(** The index map of a one-hot label holds the classes. *)
Lemma index_map_one_hot (h w c : nat) (classes : list (list nat)) :
  class_map h w c classes ->
  exists ws : nat -> nat -> Q,
    index_map h w c (one_hot_label c classes)
    = tab h (fun i => tab w (fun j => ws i j)) /\
    forall i j, i < h -> j < w ->
      (ws i j == inject_Z (Z.of_nat (class_at classes i j)))%Q.
Proof.
  intros Hcm.
  exists (fun i j => weighted_sum c
                       (fun k => get3 (one_hot_label c classes) i j k)).
  split; [apply index_map_pointwise; now apply (one_hot_label_rows h w c)|].
  intros i j Hi Hj.
  destruct (class_at_lt h w c classes i j Hcm Hi Hj) as [Hl Hk].
  rewrite (weighted_sum_one_hot c (class_at classes i j)).
  - apply Nat.ltb_lt in Hk. now rewrite Hk.
  - intros k' Hk'. apply get3_one_hot_label; destruct Hcm; lia.
Qed.

Lemma get2_tab (h w : nat) (f : nat -> nat -> Q) (i j : nat) :
  i < h -> j < w -> get2 (tab h (fun i => tab w (fun j => f i j))) i j = f i j.
Proof.
  intros Hi Hj. unfold get2.
  rewrite (nth_tab h _ i) by assumption.
  now rewrite (nth_tab w _ j) by assumption.
Qed.

Lemma map_map_tab {A B : Type} (g : A -> B) (h w : nat)
    (f : nat -> nat -> A) :
  map (map g) (tab h (fun i => tab w (fun j => f i j)))
  = tab h (fun i => tab w (fun j => g (f i j))).
Proof.
  rewrite map_tab. apply tab_ext. intros i _. apply map_tab.
Qed.

Lemma clip_keeps_class (c k : nat) (v : Q) :
  k < c -> (v == inject_Z (Z.of_nat k))%Q ->
  (if Qgtb v (top_class c) then 0%Q else v) = v.
Proof.
  intros Hk Hv. replace (Qgtb v (top_class c)) with false; [reflexivity|].
  symmetry. apply Qgtb_le. unfold top_class. rewrite Hv, <- Zle_Qle. lia.
Qed.

(** X20: round trip of the one-hot encoding through [squeeze_channels] with
    [clip=True]: on the one-hot labels of a non-empty batch of h x w maps
    of classes below [c], every image comes back and the index maps hold
    the classes again; nothing is clipped. *)
Theorem squeeze_channels_clip_one_hot_round_trip {I : Type}
    (images : list I) (n h w c : nat) (batch : list (list (list nat))) :
  1 < c ->
  batch <> [] ->
  length batch = length images ->
  Forall (class_map h w c) batch ->
  exists a,
    squeeze_channels images (one_hot_batch n h w c batch) true
    = Ok (images, Squeezed a) /\
    length (data3 a) = length batch /\
    forall b i j, b < length batch -> i < h -> j < w ->
      (get2 (nth b (data3 a) []) i j
       == inject_Z (Z.of_nat (class_at (nth b batch []) i j)))%Q.
Proof.
  intros Hc Hne Hlen Hcm. eexists. split; [|split].
  - apply (squeeze_channels_clip_full images _ n h w c).
    + reflexivity.
    + lia.
    + simpl. now rewrite length_map.
    + simpl. intros E. apply map_eq_nil in E. contradiction.
  - simpl. now rewrite !length_map.
  - intros b i j Hb Hi Hj. simpl data3. rewrite map_map.
    rewrite (nth_indep _ [] (clipped_index_map h w c (one_hot_label c [])))
      by (rewrite length_map; lia).
    rewrite (map_nth (fun x => clipped_index_map h w c (one_hot_label c x))).
    assert (Hb' : class_map h w c (nth b batch [])).
    { rewrite Forall_forall in Hcm. apply Hcm. now apply nth_In. }
    destruct (index_map_one_hot h w c _ Hb') as [ws [E Hws]].
    unfold clipped_index_map. rewrite E, map_map_tab.
    rewrite (get2_tab h w (fun i j => if Qgtb (ws i j) (top_class c)
                                      then 0%Q else ws i j)) by assumption.
    destruct (class_at_lt h w c _ i j Hb' Hi Hj) as [_ Hk].
    rewrite (clip_keeps_class c _ _ Hk (Hws i j Hi Hj)).
    now apply Hws.
Qed.

Lemma squeeze_channels_clip_one_hot_round_trip_witness :
  exists a,
    squeeze_channels [10; 20]
      (one_hot_batch 2 1 3 3 [classes_full; classes_partial]) true
    = Ok ([10; 20], Squeezed a) /\
    length (data3 a) = 2 /\
    forall b i j, b < 2 -> i < 1 -> j < 3 ->
      (get2 (nth b (data3 a) []) i j
       == inject_Z (Z.of_nat
                      (class_at (nth b [classes_full; classes_partial] [])
                                i j)))%Q.
Proof.
  apply (squeeze_channels_clip_one_hot_round_trip [10; 20] 2 1 3 3
           [classes_full; classes_partial]).
  - lia.
  - discriminate.
  - reflexivity.
  - repeat constructor.
Defined.

(** ** np.unique on class values, and the filter of the clip=False branch *)

Lemma nat_insert_unique_In (k a : nat) (l : list nat) :
  In a (nat_insert_unique k l) <-> a = k \/ In a l.
Proof.
  induction l as [|x r IH]; simpl.
  - intuition.
  - destruct (Nat.compare_spec k x) as [-> | Hlt | Hgt]; simpl.
    + intuition.
    + intuition.
    + rewrite IH. intuition.
Qed.

Lemma nat_insert_unique_HdRel (x k : nat) (r : list nat) :
  HdRel lt x r -> x < k -> HdRel lt x (nat_insert_unique k r).
Proof.
  intros Hr Hk. destruct r as [|y r]; simpl; [now constructor|].
  destruct (Nat.compare_spec k y); [assumption | now constructor |].
  constructor. now inversion Hr.
Qed.

Lemma nat_insert_unique_sorted (k : nat) (l : list nat) :
  Sorted lt l -> Sorted lt (nat_insert_unique k l).
Proof.
  induction 1 as [|x r Hr IH Hx]; simpl; [repeat constructor|].
  destruct (Nat.compare_spec k x) as [-> | Hlt | Hgt].
  - now constructor.
  - constructor; [now constructor | now constructor].
  - constructor; [assumption | now apply nat_insert_unique_HdRel].
Qed.

Lemma nat_unique_sorted (l : list nat) : Sorted lt (nat_unique l).
Proof.
  induction l as [|k l IH]; simpl; [constructor|].
  now apply nat_insert_unique_sorted.
Qed.

Lemma nat_unique_In (a : nat) (l : list nat) :
  In a (nat_unique l) <-> In a l.
Proof.
  induction l as [|k l IH]; simpl; [tauto|].
  rewrite nat_insert_unique_In, IH. intuition.
Qed.

Lemma sorted_lt_NoDup (l : list nat) : Sorted lt l -> NoDup l.
Proof.
  intros H. apply Sorted_StronglySorted in H; [|exact Nat.lt_trans].
  induction H as [|a l _ IH Ha]; constructor; [|assumption].
  intros Hin. rewrite Forall_forall in Ha. specialize (Ha a Hin). lia.
Qed.

(** A duplicate-free list of numbers below [c] has [c] elements exactly
    when every number below [c] is in it. *)
Lemma nat_unique_full (c : nat) (l : list nat) :
  Forall (fun k => k < c) l ->
  (length (nat_unique l) = c <-> forall k, k < c -> In k l).
Proof.
  intros Hl.
  pose proof (sorted_lt_NoDup _ (nat_unique_sorted l)) as Hnd.
  assert (Hincl : incl (nat_unique l) (seq 0 c)).
  { intros a Ha. apply (proj1 (nat_unique_In a l)) in Ha.
    rewrite Forall_forall in Hl. apply in_seq. specialize (Hl a Ha). lia. }
  split.
  - intros Hlen k Hk. apply (proj1 (nat_unique_In k l)).
    assert (Hinv : incl (seq 0 c) (nat_unique l)).
    { apply (NoDup_length_incl Hnd); [|assumption].
      rewrite length_seq, Hlen. lia. }
    apply Hinv. apply in_seq. lia.
  - intros Hall.
    assert (Hincl' : incl (seq 0 c) (nat_unique l)).
    { intros a Ha. apply in_seq in Ha.
      apply (proj2 (nat_unique_In a l)), Hall. lia. }
    pose proof (NoDup_incl_length (seq_NoDup c 0) Hincl') as H1.
    pose proof (NoDup_incl_length Hnd Hincl) as H2.
    rewrite length_seq in *. lia.
Qed.

Lemma class_key_of (v : Q) (k : nat) :
  (v == inject_Z (Z.of_nat k))%Q -> class_key v = k.
Proof.
  intros Hv. unfold class_key. rewrite Hv, Qfloor_Z. apply Nat2Z.id.
Qed.

Lemma Qcompare_classes (c : nat) (v v' : Q) :
  is_class c v -> is_class c v' ->
  (v ?= v')%Q = (class_key v ?= class_key v').
Proof.
  intros [k [_ Hv]] [k' [_ Hv']].
  rewrite (class_key_of v k Hv), (class_key_of v' k' Hv').
  rewrite Hv, Hv'. unfold Qcompare. simpl.
  rewrite !Z.mul_1_r. apply Nat2Z.inj_compare.
Qed.

(** On class values [insert_unique] is [nat_insert_unique]. *)
Lemma insert_unique_keys (c : nat) (v : Q) (l : list Q) :
  is_class c v -> Forall (is_class c) l ->
  map class_key (insert_unique v l)
  = nat_insert_unique (class_key v) (map class_key l) /\
  Forall (is_class c) (insert_unique v l).
Proof.
  intros Hv. induction 1 as [|x r Hx Hr IH]; simpl.
  - split; [reflexivity | repeat constructor; assumption].
  - rewrite (Qcompare_classes c v x Hv Hx).
    destruct (class_key v ?= class_key x); simpl.
    + split; [reflexivity | now constructor].
    + split; [reflexivity | repeat constructor; assumption].
    + destruct IH as [IH1 IH2]. rewrite IH1.
      split; [reflexivity | now constructor].
Qed.

Lemma np_unique_keys (c : nat) (l : list Q) :
  Forall (is_class c) l ->
  map class_key (fold_right insert_unique [] l) = nat_unique (map class_key l)
  /\ Forall (is_class c) (fold_right insert_unique [] l).
Proof.
  induction 1 as [|v l Hv _ [IH1 IH2]]; simpl; [split; [reflexivity | constructor]|].
  destruct (insert_unique_keys c v _ Hv IH2) as [H1 H2].
  rewrite H1, IH1. now split.
Qed.

(** The values of a list of class values are all there, [c] of them,
    exactly when [np.unique] has [c] entries. *)
Lemma np_unique_length_full (c : nat) (l : list Q) :
  Forall (is_class c) l ->
  (length (fold_right insert_unique [] l) = c <->
   forall k, k < c -> In k (map class_key l)).
Proof.
  intros Hl. destruct (np_unique_keys c l Hl) as [Hk _].
  rewrite <- (length_map class_key), Hk.
  apply nat_unique_full.
  apply Forall_map. eapply Forall_impl; [|exact Hl].
  simpl. intros v [k [Hlt Hv]]. now rewrite (class_key_of v k Hv).
Qed.

Lemma in_concat_tab {A : Type} (h w : nat) (f : nat -> nat -> A) (a : A) :
  In a (concat (tab h (fun i => tab w (fun j => f i j)))) <->
  exists i j, i < h /\ j < w /\ a = f i j.
Proof.
  rewrite in_concat. split.
  - intros [row [Hrow Ha]]. unfold tab in Hrow. apply in_map_iff in Hrow.
    destruct Hrow as [i [<- Hi]]. apply in_map_iff in Ha.
    destruct Ha as [j [<- Hj]]. apply in_seq in Hi, Hj.
    exists i, j. repeat split; lia.
  - intros [i [j [Hi [Hj ->]]]]. exists (tab w (fun j => f i j)). split.
    + unfold tab. apply in_map_iff. exists i. split; [reflexivity|].
      apply in_seq. lia.
    + unfold tab. apply in_map_iff. exists j. split; [reflexivity|].
      apply in_seq. lia.
Qed.

Lemma unique_count_one_hot (h w c : nat) (classes : list (list nat)) :
  class_map h w c classes ->
  (length (np_unique (squeeze_channels_ h w c (one_hot_label c classes))) = c
   <-> forall k, k < c ->
         exists i j, i < h /\ j < w /\ class_at classes i j = k).
Proof.
  intros Hcm. rewrite squeeze_channels__plane.
  destruct (index_map_one_hot h w c classes Hcm) as [ws [E Hws]].
  unfold np_unique, flatten3. cbn [map concat]. rewrite app_nil_r, E.
  assert (Hl : Forall (is_class c)
                 (concat (tab h (fun i => tab w (fun j => ws i j))))).
  { apply Forall_forall. intros v Hv. apply in_concat_tab in Hv.
    destruct Hv as [i [j [Hi [Hj ->]]]].
    exists (class_at classes i j). split; [|now apply Hws].
    now apply (class_at_lt h w c classes i j Hcm). }
  rewrite (np_unique_length_full c _ Hl).
  split; intros H k Hk; specialize (H k Hk).
  - apply in_map_iff in H. destruct H as [v [Hkey Hv]].
    apply in_concat_tab in Hv. destruct Hv as [i [j [Hi [Hj ->]]]].
    exists i, j. split; [assumption|]. split; [assumption|].
    now rewrite (class_key_of _ _ (Hws i j Hi Hj)) in Hkey.
  - destruct H as [i [j [Hi [Hj Hc]]]]. apply in_map_iff.
    exists (ws i j). split.
    + now rewrite (class_key_of _ _ (Hws i j Hi Hj)).
    + apply in_concat_tab. now exists i, j.
Qed.

(** X21: on the one-hot label of an h x w map of classes below [c], the
    filter of the [clip=False] branch, [len(np.unique(label)) == c], holds
    exactly when every class below [c] occurs somewhere in the map. *)
Theorem noclip_filter_on_one_hot (h w c : nat) (classes : list (list nat)) :
  class_map h w c classes ->
  (length (np_unique (squeeze_channels_ h w c (one_hot_label c classes))) = c
   <-> forall k, k < c ->
         exists i j, i < h /\ j < w /\ class_at classes i j = k).
Proof. exact (unique_count_one_hot h w c classes). Qed.

Lemma noclip_filter_on_one_hot_witness :
  length (np_unique (squeeze_channels_ 1 3 3 (one_hot_label 3 classes_full))) = 3
  <-> forall k, k < 3 ->
        exists i j, i < 1 /\ j < 3 /\ class_at classes_full i j = k.
Proof.
  apply noclip_filter_on_one_hot. repeat constructor.
Defined.

Lemma coversb_covers (h w c : nat) (classes : list (list nat)) :
  class_map h w c classes ->
  (coversb c classes = true <-> covers h w c classes).
Proof.
  intros [Hh Hrows]. unfold coversb, covers. rewrite forallb_forall. split.
  - intros H k Hk.
    assert (Hin : In k (seq 0 c)) by (apply in_seq; lia).
    specialize (H k Hin). apply existsb_exists in H.
    destruct H as [row [Hrow Hex]]. apply existsb_exists in Hex.
    destruct Hex as [k' [Hk' E]]. apply Nat.eqb_eq in E. subst k'.
    destruct (In_nth _ _ [] Hrow) as [i [Hi Ei]].
    destruct (In_nth _ _ 0 Hk') as [j [Hj Ej]].
    rewrite Forall_forall in Hrows. destruct (Hrows row Hrow) as [Hl _].
    exists i, j. unfold class_at. rewrite Ei, Ej. repeat split; lia.
  - intros H k Hin. apply in_seq in Hin.
    destruct (H k) as [i [j [Hi [Hj E]]]]; [lia|].
    apply existsb_exists. exists (nth i classes []). split.
    + apply nth_In. lia.
    + apply existsb_exists. exists k. split; [|apply Nat.eqb_refl].
      rewrite <- E. unfold class_at. apply nth_In.
      rewrite Forall_forall in Hrows.
      destruct (Hrows (nth i classes [])) as [Hl _]; [apply nth_In; lia|].
      lia.
Qed.

Lemma all_classes_present_one_hot (h w c : nat) (classes : list (list nat)) :
  class_map h w c classes ->
  all_classes_present c (squeeze_channels_ h w c (one_hot_label c classes))
  = coversb c classes.
Proof.
  intros Hcm. unfold all_classes_present.
  destruct (coversb c classes) eqn:E.
  - apply Nat.eqb_eq. apply (proj2 (unique_count_one_hot h w c classes Hcm)).
    exact (proj1 (coversb_covers h w c classes Hcm) E).
  - apply Nat.eqb_neq. intros Hl.
    pose proof (proj1 (unique_count_one_hot h w c classes Hcm) Hl) as Hcov.
    pose proof (proj2 (coversb_covers h w c classes Hcm) Hcov). congruence.
Qed.

Lemma kept_pairs_one_hot {I : Type} (h w c : nat)
    (batch : list (list (list nat))) (images : list I) :
  Forall (class_map h w c) batch ->
  kept_pairs h w c (combine (map (one_hot_label c) batch) images)
  = map (fun p => (one_hot_label c (fst p), snd p))
        (filter (fun p => coversb c (fst p)) (combine batch images)).
Proof.
  intros Hcm. revert images.
  induction Hcm as [|classes batch Hc _ IH]; intros [|image images];
    try reflexivity.
  simpl. rewrite (all_classes_present_one_hot h w c classes Hc).
  destruct (coversb c classes); simpl; now rewrite IH.
Qed.

Lemma squeeze_channels_noclip_full {I : Type} (images : list I)
    (labels : ndarray4) (n h w c : nat) (kp : list (image * I)) :
  shape labels = (n, h, w, c) ->
  c <> 1 ->
  kept_pairs h w c (combine (data labels) images) = kp ->
  squeeze_channels images labels false
  = match kp with
    | [] => Err ValueError
    | _ :: _ =>
        Ok (map snd kp,
            Squeezed {| shape3 := (length kp, h, w);
                        data3 := map (fun p => index_map h w c (fst p)) kp |})
    end.
Proof.
  intros Hs Hc <-.
  now rewrite (squeeze_channels_noclip_spec images labels n h w c Hs Hc).
Qed.

(** X22: [squeeze_channels] with [clip=False] on the one-hot labels of a
    batch of h x w maps of classes below [c]: the pairs that come back are
    exactly those whose map contains every class, in their order, and
    their index maps hold the classes again; with no such pair it
    raises. *)
Theorem squeeze_channels_noclip_one_hot {I : Type}
    (images : list I) (n h w c : nat) (batch : list (list (list nat))) :
  1 < c ->
  Forall (class_map h w c) batch ->
  let kept := filter (fun p => coversb c (fst p)) (combine batch images) in
  (kept = [] ->
   squeeze_channels images (one_hot_batch n h w c batch) false
   = Err ValueError) /\
  (kept <> [] ->
   exists a,
     squeeze_channels images (one_hot_batch n h w c batch) false
     = Ok (map snd kept, Squeezed a) /\
     length (data3 a) = length kept /\
     forall b i j, b < length kept -> i < h -> j < w ->
       (get2 (nth b (data3 a) []) i j
        == inject_Z (Z.of_nat (class_at (nth b (map fst kept) []) i j)))%Q).
Proof.
  intros Hc Hcm kept.
  assert (Hc1 : c <> 1) by lia.
  pose proof (squeeze_channels_noclip_full images
                (one_hot_batch n h w c batch) n h w c _ eq_refl Hc1
                (kept_pairs_one_hot h w c batch images Hcm)) as Hspec.
  fold kept in Hspec.
  assert (Hkcm : Forall (class_map h w c) (map fst kept)).
  { apply Forall_map, Forall_forall. intros [classes image] Hin.
    apply filter_In in Hin. destruct Hin as [Hin _]. simpl.
    rewrite Forall_forall in Hcm. apply Hcm.
    exact (in_combine_l _ _ _ _ Hin). }
  split.
  - intros E. rewrite Hspec, E. reflexivity.
  - intros Hne.
    exists {| shape3 := (length kept, h, w);
              data3 := map (fun classes =>
                              index_map h w c (one_hot_label c classes))
                           (map fst kept) |}.
    split; [|split].
    + rewrite Hspec. destruct kept as [|p kept']; [congruence|].
      change (map (fun p0 : list (list nat) * I =>
                     (one_hot_label c (fst p0), snd p0)) (p :: kept'))
        with ((one_hot_label c (fst p), snd p)
              :: map (fun p0 : list (list nat) * I =>
                        (one_hot_label c (fst p0), snd p0)) kept').
      cbv iota.
      change ((one_hot_label c (fst p), snd p)
              :: map (fun p0 : list (list nat) * I =>
                        (one_hot_label c (fst p0), snd p0)) kept')
        with (map (fun p0 : list (list nat) * I =>
                     (one_hot_label c (fst p0), snd p0)) (p :: kept')).
      rewrite !map_map, length_map. reflexivity.
    + simpl. now rewrite !length_map.
    + intros b i j Hb Hi Hj. simpl data3.
      rewrite (nth_indep _ [] (index_map h w c (one_hot_label c [])))
        by (rewrite !length_map; lia).
      rewrite (map_nth (fun classes =>
                          index_map h w c (one_hot_label c classes))).
      assert (Hb' : class_map h w c (nth b (map fst kept) [])).
      { rewrite Forall_forall in Hkcm. apply Hkcm. apply nth_In.
        now rewrite length_map. }
      destruct (index_map_one_hot h w c _ Hb') as [ws [E Hws]].
      rewrite E, get2_tab by assumption.
      now apply Hws.
Qed.

Lemma squeeze_channels_noclip_one_hot_witness :
  exists a,
    squeeze_channels [10; 20]
      (one_hot_batch 2 1 3 3 [classes_partial; classes_full]) false
    = Ok ([20], Squeezed a) /\
    length (data3 a) = 1 /\
    forall b i j, b < 1 -> i < 1 -> j < 3 ->
      (get2 (nth b (data3 a) []) i j
       == inject_Z (Z.of_nat (class_at (nth b [classes_full] []) i j)))%Q.
Proof.
  assert (Hc : 1 < 3) by lia.
  assert (Hcm : Forall (class_map 1 3 3) [classes_partial; classes_full])
    by (repeat constructor).
  destruct (squeeze_channels_noclip_one_hot [10; 20] 2 1 3 3
              [classes_partial; classes_full] Hc Hcm) as [_ H].
  apply H. discriminate.
Defined.

(** ** The Jaccard vector as intersection over union *)








(** ** threshold_: images without positions *)

(** X24: on a non-empty batch whose images have no position (height or
    width 0), [threshold_] raises AttributeError at the first image:
    OpenCV hands back [None] for it, and [x.ndim] fails. *)
Theorem threshold_no_positions_raises (xarr : ndarray4) (thresh : Q)
    (n c h w : nat) :
  shape xarr = (n, c, h, w) ->
  data xarr <> [] ->
  0 < c ->
  h = 0 \/ w = 0 ->
  threshold_ xarr thresh = Err AttributeError.
Proof.
  intros Hs Hd Hc Hhw. unfold threshold_, transpose_0231. rewrite Hs.
  cbn [shape data zeros_like]. unfold enumerate.
  destruct (data xarr) as [|x xs]; [congruence|].
  cbn [map length seq combine threshold_loop].
  rewrite cv2_threshold_no_entries by (destruct Hhw; subst; lia).
  reflexivity.
Qed.

Lemma threshold_no_positions_raises_witness :
  threshold_ {| shape := (1, 2, 0, 3); data := [[[]; []]] |} (1 # 2)%Q
  = Err AttributeError.
Proof.
  apply (threshold_no_positions_raises _ _ 1 2 0 3).
  - reflexivity.
  - discriminate.
  - lia.
  - now left.
Defined.

(** ** evaluate: the filter of the undefined entries *)

(** X25: whenever [evaluate] gets its histogram, every entry of the Jaccard
    vector is a number: the constant in the denominator keeps the division
    defined, so no entry is NaN, the filter [jcd == jcd] (which would drop
    a NaN) drops nothing, and the result is a number.  With predictions in
    range, the entry of a class that occurs in neither map is 0, and it is
    part of the mean. *)
Theorem nan_filter_drops_nothing (self : IoU) (hist : list (list Z)) :
  batch_hist self = Ok hist ->
  length (jaccard hist) = self_nb_classes self /\
  Forall (fun x => exists q, x = Fin q) (jaccard hist) /\
  filter self_equal (jaccard hist) = jaccard hist /\
  (forall l, ~ In NaN (filter self_equal l)) /\
  (forall i,
      i < self_nb_classes self ->
      class_absent self i ->
      (forall t p, In (t, p) (batch_pairs self) ->
                   preds_in_range (self_nb_classes self) t p) ->
      exists q, nth i (jaccard hist) NaN = Fin q /\ (q == 0)%Q) /\
  (0 < self_nb_classes self -> exists m, evaluate self = Ok (Fin m)).
Proof.
  intros H.
  assert (Hok : Forall (pair_ok (self_nb_classes self)) (batch_pairs self))
    by exact (accumulate_ok_inv _ _ _ _ H).
  pose proof H as Hev.
  rewrite (batch_hist_ok self Hok) in H. injection H as <-.
  set (nb := self_nb_classes self) in *.
  set (c := fun i j => rounded_cell nb (batch_pairs self) 0 i j) in *.
  assert (Hc : forall a b, (0 <= c a b)%Z)
    by (intros; apply rounded_cell_nonneg; lia).
  rewrite (jaccard_finite nb c Hc).
  split; [|split; [|split; [|split; [|split]]]].
  - unfold jaccard_q. now rewrite length_map, length_tab.
  - apply Forall_map, Forall_forall. intros q _. now exists q.
  - apply filter_self_equal_Fin.
  - apply filter_self_equal_no_nan.
  - intros i Hi Habs Hp. rewrite (jaccard_q_nth nb c i Hi).
    eexists. split; [reflexivity|].
    replace (c i i) with 0%Z.
    + unfold Qdiv. change (inject_Z 0) with 0%Q. apply Qmult_0_l.
    + symmetry. apply rounded_cell_zero. intros t p Hin.
      apply cell_count_diag_absent;
        [assumption | now apply Hp | now apply (Habs t p)].
  - intros Hnb. unfold evaluate. rewrite Hev. simpl bind.
    rewrite (jaccard_finite nb c Hc), filter_self_equal_Fin.
    rewrite fmean_Fin; [now eexists|].
    unfold jaccard_q, tab. destruct nb; [lia | discriminate].
Qed.

Lemma nan_filter_drops_nothing_witness :
  exists q, nth 1 (jaccard [[1; 0]; [0; 0]]%Z) NaN = Fin q /\ (q == 0)%Q.
Proof.
  assert (H : batch_hist self_background = Ok [[1; 0]; [0; 0]]%Z)
    by reflexivity.
  destruct (nan_filter_drops_nothing self_background _ H)
    as [_ [_ [_ [_ [Habs _]]]]].
  apply (Habs 1).
  - simpl. lia.
  - intros t p [E | []]. inversion E. simpl. split; intros [F | []]; discriminate.
  - intros t p [E | []]. inversion E.
    unfold preds_in_range. simpl. repeat constructor; simpl; lia.
Defined.
